(** * API gateway: gRPC client layer (pkg/grpc/client.go)

    A shallow embedding of the gateway's gRPC client package: the error
    translator [handleGRPCError], the channel registry [Clients] with its
    [Close] and [HealthCheck] operations, the service facades, and the
    order-creation saga that composes the facades.

    Go values are modelled as follows.
    - [error] interface values: [option error], [None] being Go's [nil].
    - pointers to connections: locations in a store ([gmap loc ClientConn]),
      [None] being the nil pointer.
    - [map[string]bool]: [gmap string bool].
    - [int32], [int], [codes.Code], [connectivity.State]: [Z].
    - [float64]: the kernel's binary64 floats.
    - [Close] takes its receiver as the pointer it is, nil included (the
      registry of a failed [NewClients] is nil); the other methods of
      [*Clients] take the struct their receiver points to.
    - the [context.Context] argument, which no function of the file
      reads, is left out. *)

From Stdlib Require Import ZArith String List.
From Stdlib Require Import Floats.PrimFloat Numbers.Cyclic.Int63.Uint63.
From stdpp Require Import gmap strings list pretty.

Open Scope string_scope.
Open Scope Z_scope.

(** ** google.golang.org/grpc/codes *)

Module codes.

(** [type Code uint32] with the canonical constants. *)
Definition Code := Z.

Definition OK : Code := 0.
Definition Canceled : Code := 1.
Definition Unknown : Code := 2.
Definition InvalidArgument : Code := 3.
Definition DeadlineExceeded : Code := 4.
Definition NotFound : Code := 5.
Definition AlreadyExists : Code := 6.
Definition PermissionDenied : Code := 7.
Definition ResourceExhausted : Code := 8.
Definition FailedPrecondition : Code := 9.
Definition Aborted : Code := 10.
Definition OutOfRange : Code := 11.
Definition Unimplemented : Code := 12.
Definition Internal : Code := 13.
Definition Unavailable : Code := 14.
Definition DataLoss : Code := 15.
Definition Unauthenticated : Code := 16.

(** [func (c Code) String() string] *)
Definition String (c : Code) : string :=
  if c =? OK then "OK"
  else if c =? Canceled then "Canceled"
  else if c =? Unknown then "Unknown"
  else if c =? InvalidArgument then "InvalidArgument"
  else if c =? DeadlineExceeded then "DeadlineExceeded"
  else if c =? NotFound then "NotFound"
  else if c =? AlreadyExists then "AlreadyExists"
  else if c =? PermissionDenied then "PermissionDenied"
  else if c =? ResourceExhausted then "ResourceExhausted"
  else if c =? FailedPrecondition then "FailedPrecondition"
  else if c =? Aborted then "Aborted"
  else if c =? OutOfRange then "OutOfRange"
  else if c =? Unimplemented then "Unimplemented"
  else if c =? Internal then "Internal"
  else if c =? Unavailable then "Unavailable"
  else if c =? DataLoss then "DataLoss"
  else if c =? Unauthenticated then "Unauthenticated"
  else "Code(" +:+ pretty c +:+ ")".

End codes.

(** ** Go error values and google.golang.org/grpc/status *)

Module status.

(** [*status.Status]: a code and a message. *)
Record Status : Type := New { code : codes.Code; message : string }.

(** [func (s *Status) Code() codes.Code]; a nil status reads as OK. *)
Definition Code (s : option Status) : codes.Code :=
  match s with
  | None => codes.OK
  | Some st => code st
  end.

End status.

(** The dynamic values an [error] interface can hold here.
    - [ErrorString a text]: the pointer [a] returned by [errors.New(text)];
      two such values are equal only when they are the same pointer.
    - [StatusErr st]: [status.Error(c, msg)], whose [GRPCStatus()] is [st].
    - [NilStatusErr text]: an error that implements [GRPCStatus()] but
      returns a nil status from it (a malformed status object).
    - [WrapErr text inner]: [fmt.Errorf("...%w", inner)]. *)
Inductive error : Type :=
| ErrorString (addr : positive) (text : string)
| StatusErr (st : status.Status)
| NilStatusErr (text : string)
| WrapErr (text : string) (inner : error).

#[global] Instance error_eq_dec : EqDecision error.
Proof.
  intros x; induction x; intros [] ; try (right; congruence).
  - destruct (decide (addr = addr0)), (decide (text = text0));
      subst; try (right; congruence); left; reflexivity.
  - destruct st as [c m], st0 as [c0 m0].
    destruct (decide (c = c0)), (decide (m = m0));
      subst; try (right; congruence); left; reflexivity.
  - destruct (decide (text = text0)); subst; [left | right]; congruence.
  - destruct (decide (text = text0)), (IHx inner);
      subst; try (right; congruence); left; reflexivity.
Defined.

(** [func (e error) Error() string] *)
Definition Error (e : error) : string :=
  match e with
  | ErrorString _ text => text
  | StatusErr st =>
      "rpc error: code = " +:+ codes.String (status.code st)
        +:+ " desc = " +:+ status.message st
  | NilStatusErr text => text
  | WrapErr text _ => text
  end.

(** The first status in the [Unwrap] chain, as [errors.As] finds it:
    [Some (Some st)] for a status, [Some None] for a [GRPCStatus()] that
    returns nil, [None] when nothing in the chain carries a status. *)
Fixpoint GRPCStatus (e : error) : option (option status.Status) :=
  match e with
  | ErrorString _ _ => None
  | StatusErr st => Some (Some st)
  | NilStatusErr _ => Some None
  | WrapErr _ inner => GRPCStatus inner
  end.

(** [func status.FromError(err error) (s *Status, ok bool)] *)
Definition FromError (err : option error) : option status.Status * bool :=
  match err with
  | None => (None, true)
  | Some e =>
      match e with
      | StatusErr st => (Some st, true)
      | NilStatusErr _ => (Some (status.New codes.Unknown (Error e)), false)
      | _ =>
          match GRPCStatus e with
          | Some (Some st) =>
              (Some (status.New (status.code st) (Error e)), true)
          | _ => (Some (status.New codes.Unknown (Error e)), false)
          end
      end
  end.

(** ** google.golang.org/grpc/connectivity *)

Module connectivity.

(** [type State int] with the five states, numbered by [iota]. *)
Definition State := Z.

Definition Idle : State := 0.
Definition Connecting : State := 1.
Definition Ready : State := 2.
Definition TransientFailure : State := 3.
Definition Shutdown : State := 4.

(** [func (s State) String() string] *)
Definition String (s : State) : string :=
  if s =? Idle then "IDLE"
  else if s =? Connecting then "CONNECTING"
  else if s =? Ready then "READY"
  else if s =? TransientFailure then "TRANSIENT_FAILURE"
  else if s =? Shutdown then "SHUTDOWN"
  else "INVALID_STATE".

End connectivity.

(** ** Connections, the store they live in, and stateful computations *)

(** A [*grpc.ClientConn] is a location; the connection it points to holds
    its dial target and its current connectivity state. *)
Definition loc := positive.

Record ClientConn : Type := mkConn {
  target : string;
  state : connectivity.State
}.

(** The result of running a piece of Go code: a value, or a run-time
    panic (here only the nil pointer dereference). *)
Inductive outcome (A : Type) : Type :=
| Done (a : A)
| Panic (msg : string).

Arguments Done {A} a.
Arguments Panic {A} msg.

(** Code that reads and writes a state of type [S]. *)
Definition Stateful (S A : Type) : Type := S -> outcome (A * S).

Definition ret {S A : Type} (a : A) : Stateful S A := fun s => Done (a, s).

Definition bind {S A B : Type} (m : Stateful S A) (k : A -> Stateful S B)
  : Stateful S B :=
  fun s =>
    match m s with
    | Done (a, s') => k a s'
    | Panic msg => Panic msg
    end.

(** Code that runs against the store of connections. *)
Definition M (A : Type) : Type := Stateful (gmap loc ClientConn) A.

Declare Scope go_scope.
Delimit Scope go_scope with go.
Notation "x <- m ;; k" := (bind m (fun x => k))
  (at level 100, m at next level, right associativity) : go_scope.
Notation "m ;;; k" := (bind m (fun _ => k))
  (at level 100, right associativity) : go_scope.

Definition nil_deref : string :=
  "invalid memory address or nil pointer dereference".

(** Reading and writing through a connection pointer. *)
Definition deref (p : option loc) : M ClientConn :=
  fun h =>
    match p with
    | None => Panic nil_deref
    | Some l =>
        match h !! l with
        | Some cc => Done (cc, h)
        | None => Panic nil_deref
        end
    end.

Definition assign (p : option loc) (cc : ClientConn) : M unit :=
  fun h =>
    match p with
    | None => Panic nil_deref
    | Some l => Done (tt, <[l := cc]> h)
    end.

(** [func (cc *ClientConn) GetState() connectivity.State] *)
Definition GetState (p : option loc) : M connectivity.State :=
  (cc <- deref p ;; ret (state cc))%go.

(** [grpc.ErrClientConnClosing] *)
Definition ErrClientConnClosing : error :=
  StatusErr (status.New codes.Canceled "grpc: the client connection is closing").

(** [func (cc *ClientConn) Close() error]: the first call tears the
    connection down (state SHUTDOWN) and returns nil; a call on a
    connection already closed returns [ErrClientConnClosing]. *)
Definition ClientConn_Close (p : option loc) : M (option error) :=
  (cc <- deref p ;;
   if state cc =? connectivity.Shutdown then ret (Some ErrClientConnClosing)
   else assign p (mkConn (target cc) connectivity.Shutdown) ;;; ret None)%go.

(** What [grpc.Dial] does with a target is the library's business: which
    targets it rejects, and with which error, and the state in which a
    new connection is when the non-blocking dial returns. *)
Record Dialer : Type := mkDialer {
  dial_error : string -> option error;
  dial_state : string -> connectivity.State
}.

(** [grpc.Dial(target, opts...)], which returns a connection pointer and
    an error, without [WithBlock]: a rejected target gives a nil connection and the
    error; any other target gives a new connection, at an address that
    was not in use, and no error. *)
Definition Dial (D : Dialer) (target : string) : M (option loc * option error) :=
  fun h =>
    match dial_error D target with
    | Some e => Done ((None, Some e), h)
    | None =>
        let l := fresh (dom h) in
        Done ((Some l, None), <[l := mkConn target (dial_state D target)]> h)
    end.

(** ** Package grpc of the gateway (pkg/grpc/client.go) *)

Module grpcclient.

(** Common errors: three package-level sentinels, each its own pointer. *)
Definition ErrNotFound : error := ErrorString 1 "resource not found".
Definition ErrUnauthorized : error := ErrorString 2 "unauthorized".
Definition ErrInternal : error := ErrorString 3 "internal error".

(** handleGRPCError converts gRPC errors to application errors. *)
Definition handleGRPCError (err : option error) : option error :=
  match err with
  | None => None
  | Some _ =>
      let '(st, ok) := FromError err in
      if negb ok then err
      else
        let c := status.Code st in
        if c =? codes.NotFound then Some ErrNotFound
        else if (c =? codes.PermissionDenied) || (c =? codes.Unauthenticated)
        then Some ErrUnauthorized
        else Some ErrInternal
  end.

(** The domain taxonomy of the specification, and the kind a returned
    error value denotes: only the three sentinels are domain errors. *)
Inductive DomainKind : Type :=
| KNotFound | KUnauthorized | KConflict | KInternal | KCanceled.

Definition kind_of (err : option error) : option DomainKind :=
  match err with
  | None => None
  | Some e =>
      if decide (e = ErrNotFound) then Some KNotFound
      else if decide (e = ErrUnauthorized) then Some KUnauthorized
      else if decide (e = ErrInternal) then Some KInternal
      else None
  end.

(** The mapping policy as the specification's table words it, on the
    signal class of a status. *)
Definition spec_kind (c : codes.Code) : DomainKind :=
  if c =? codes.NotFound then KNotFound
  else if (c =? codes.PermissionDenied) || (c =? codes.Unauthenticated)
  then KUnauthorized
  else if (c =? codes.ResourceExhausted) || (c =? codes.InvalidArgument)
  then KConflict
  else KInternal.

(** Modelled from the spec: internal/config is not part of the sources;
    the fields are those that client.go and main.go read. *)
Record Config : Type := mkConfig {
  Port : string;
  UserServiceAddr : string;
  ListingServiceAddr : string;
  InventoryServiceAddr : string
}.

(** Clients holds all gRPC client connections. *)
Record Clients : Type := mkClients {
  userConn : option loc;
  listingConn : option loc;
  inventoryConn : option loc;
  config : option Config
}.

(** Close closes all gRPC connections.  The receiver is the pointer
    [*Clients]: on a nil receiver the first field read, [c.userConn],
    panics.  The values the three [Close] calls return are dropped, as
    in the source. *)
Definition Close (c : option Clients) : M unit :=
  match c with
  | None => fun _ => Panic nil_deref
  | Some c =>
      ((if userConn c is Some _ then ClientConn_Close (userConn c) ;;; ret tt
        else ret tt) ;;;
       (if listingConn c is Some _
        then ClientConn_Close (listingConn c) ;;; ret tt
        else ret tt) ;;;
       (if inventoryConn c is Some _
        then ClientConn_Close (inventoryConn c) ;;; ret tt
        else ret tt))%go
  end.

(** The closure [isHealthy] of [HealthCheck]. *)
Definition isHealthy (conn : option loc) : M bool :=
  (if conn is None then ret false
   else
     st <- GetState conn ;;
     let state := connectivity.String st in
     ret (String.eqb state "READY" || String.eqb state "IDLE"))%go.

(** HealthCheck checks the health of all connected services.
    A connection is considered healthy if it's in READY or IDLE state. *)
Definition HealthCheck (c : Clients) : M (gmap string bool) :=
  (u <- isHealthy (userConn c) ;;
   l <- isHealthy (listingConn c) ;;
   i <- isHealthy (inventoryConn c) ;;
   ret (<["user-service" := u]>
          (<["listing-service" := l]>
             (<["inventory-service" := i]> (∅ : gmap string bool)))))%go.

(** The services a [Clients] value is configured with, by the name the
    health report gives them. *)
Definition services (c : Clients) : list (string * option loc) :=
  [("user-service", userConn c);
   ("listing-service", listingConn c);
   ("inventory-service", inventoryConn c)].

(** Every connection pointer held by [c] points into the store. *)
Definition valid (h : gmap loc ClientConn) (c : Clients) : Prop :=
  forall svc l, (svc, Some l) ∈ services c -> is_Some (h !! l).

(** NewClients creates and initializes all gRPC client connections.
    Connections are established asynchronously.  [cfg] is the pointer
    argument, read first at the first dial; the log line is left out. *)
Definition NewClients (D : Dialer) (cfg : option Config)
  : M (option Clients * option error) :=
  match cfg with
  | None => fun _ => Panic nil_deref
  | Some cf =>
      (r1 <- Dial D (UserServiceAddr cf) ;;
       let userConn := fst r1 in
       if snd r1 is Some _ then ret (None, snd r1)
       else
         r2 <- Dial D (ListingServiceAddr cf) ;;
         let listingConn := fst r2 in
         if snd r2 is Some _
         then ClientConn_Close userConn ;;; ret (None, snd r2)
         else
           r3 <- Dial D (InventoryServiceAddr cf) ;;
           let inventoryConn := fst r3 in
           if snd r3 is Some _
           then
             ClientConn_Close userConn ;;;
             ClientConn_Close listingConn ;;;
             ret (None, snd r3)
           else
             ret (Some (mkClients userConn listingConn inventoryConn cfg),
                  None))%go
  end.

(** The error of the first target that [grpc.Dial] rejects, the targets
    taken in the order in which [NewClients] dials them. *)
Definition first_rejected (D : Dialer) (cf : Config) : option error :=
  match dial_error D (UserServiceAddr cf) with
  | Some e => Some e
  | None =>
      match dial_error D (ListingServiceAddr cf) with
      | Some e => Some e
      | None => dial_error D (InventoryServiceAddr cf)
      end
  end.

(** *** Models (internal/models) *)

(** [float64(n)] for an integer [n] of the [int32] range. *)
Definition float64_of_int (n : Z) : float :=
  if n <? 0 then PrimFloat.opp (PrimFloat.of_uint63 (Uint63.of_Z (- n)))
  else PrimFloat.of_uint63 (Uint63.of_Z n).

(** The literal [29.99] as a [float64]: the nearest binary64 value. *)
Definition f29_99 : float := 0x1.dfd70a3d70a3dp+4%float.

(** Modelled from the spec: internal/models is not part of the sources;
    each record has the fields that client.go reads or writes, with the
    types their uses there fix.  The type of a shipping address is not
    fixed by any use, and is a parameter [Addr]. *)
Record Product : Type := mkProduct {
  Product_ID : string;
  Product_Name : string;
  Product_Description : string;
  Product_Price : float;
  Product_Category : string;
  Product_Images : list string;
  Product_SellerID : string;
  Product_Available : bool
}.

Record OrderItemRequest : Type := mkOrderItemRequest {
  Req_ProductID : string;
  Req_Quantity : Z
}.

Record CreateOrderRequest (Addr : Type) : Type := mkCreateOrderRequest {
  Req_Items : list OrderItemRequest;
  Req_ShippingAddr : Addr
}.

Record OrderItem : Type := mkOrderItem {
  Item_ProductID : string;
  Item_Quantity : Z;
  Item_UnitPrice : float;
  Item_TotalPrice : float
}.

Record Order (Addr : Type) : Type := mkOrder {
  Order_ID : string;
  Order_UserID : string;
  Order_Items : list OrderItem;
  Order_Status : string;
  Order_TotalAmount : float;
  Order_ShippingAddr : Addr;
  Order_ReservationIDs : list string
}.

Arguments mkCreateOrderRequest {Addr} _ _.
Arguments Req_Items {Addr} _.
Arguments Req_ShippingAddr {Addr} _.
Arguments mkOrder {Addr} _ _ _ _ _ _ _.
Arguments Order_ID {Addr} _.
Arguments Order_UserID {Addr} _.
Arguments Order_Items {Addr} _.
Arguments Order_Status {Addr} _.
Arguments Order_TotalAmount {Addr} _.
Arguments Order_ShippingAddr {Addr} _.
Arguments Order_ReservationIDs {Addr} _.

(** *** Listing service *)

(** GetProduct fetches a single product from the listing service.
    The result is a product pointer (nil on failure) and an error. *)
Definition GetProduct (c : Clients) (id : string)
  : option Product * option error :=
  if String.eqb id "not-found" then (None, Some ErrNotFound)
  else
    (Some {| Product_ID := id;
             Product_Name := "Sample Product";
             Product_Description := "A sample product for testing";
             Product_Price := f29_99;
             Product_Category := "electronics";
             Product_Images := [];
             Product_SellerID := "";
             Product_Available := true |},
     None).

(** *** Inventory service *)

(** ReserveInventory reserves inventory for an order. *)
Definition ReserveInventory (c : Clients) (productID : string) (quantity : Z)
  : string * option error :=
  ("reservation-" +:+ productID, None).

(** CancelReservation cancels an inventory reservation. *)
Definition CancelReservation (c : Clients) (reservationID : string)
  : option error :=
  None.

(** *** User/Order service *)

(** One turn of the loop of [CreateOrder] over [req.Items]. *)
Definition CreateOrder_step (acc : list OrderItem * float)
  (item : OrderItemRequest) : list OrderItem * float :=
  let '(items, total) := acc in
  let orderItem :=
    {| Item_ProductID := Req_ProductID item;
       Item_Quantity := Req_Quantity item;
       Item_UnitPrice := f29_99;
       Item_TotalPrice :=
         PrimFloat.mul (float64_of_int (Req_Quantity item)) f29_99 |} in
  ((items ++ [orderItem])%list, PrimFloat.add total (Item_TotalPrice orderItem)).

(** CreateOrder creates a new order.  [req] is the request the pointer
    argument points to. *)
Definition CreateOrder {Addr : Type} (c : Clients) (userID : string)
  (req : CreateOrderRequest Addr) (reservationIDs : list string)
  : option (Order Addr) * option error :=
  let '(items, total) :=
    fold_left CreateOrder_step (Req_Items req) ([], 0%float) in
  (Some {| Order_ID := "order-new";
           Order_UserID := userID;
           Order_Items := items;
           Order_Status := "pending";
           Order_TotalAmount := total;
           Order_ShippingAddr := Req_ShippingAddr req;
           Order_ReservationIDs := reservationIDs |},
   None).

(** GetOrder fetches a single order.  The fields that the literal
    leaves out have the zero value of their type; for the shipping
    address, whose type is a parameter, that is its [inhabitant]. *)
Definition GetOrder {Addr : Type} `{Inhabited Addr} (c : Clients)
  (orderID userID : string) : option (Order Addr) * option error :=
  if String.eqb orderID "not-found" then (None, Some ErrNotFound)
  else
    (Some {| Order_ID := orderID;
             Order_UserID := userID;
             Order_Items := [];
             Order_Status := "pending";
             Order_TotalAmount := 0%float;
             Order_ShippingAddr := inhabitant;
             Order_ReservationIDs := [] |},
     None).

End grpcclient.

Import grpcclient.

(** ** Package main (main.go) *)

(** The port that [main] passes to the router: the configured port, or
    the environment's PORT when none is configured, or 8080 when neither
    is set.  [Getenv] is [os.Getenv]. *)
Definition listen_port (cfg : Config) (Getenv : string -> string) : string :=
  let port := Port cfg in
  if String.eqb port ""
  then
    let port := Getenv "PORT" in
    if String.eqb port "" then "8080" else port
  else port.

(** The address [main] listens on. *)
Definition listen_addr (cfg : Config) (Getenv : string -> string) : string :=
  ":" +:+ listen_port cfg Getenv.

(** ** Order creation coordinator (the saga) *)

Module Coordinator.

(** Modelled from the spec: the service facades of section 4.3 as the
    coordinator calls them (internal/handlers is not part of the
    sources).  Each operation runs against the state [W] of the backend
    services and returns what the Go facade returns: a value and an
    [error], the call having failed when the error is not nil. *)
Record Facades (Addr W : Type) : Type := mkFacades {
  Inventory_Reserve : string -> Z -> W -> (string * option error) * W;
  Inventory_Cancel : string -> W -> option error * W;
  Order_Create :
    string -> CreateOrderRequest Addr -> list string -> W ->
    (option (Order Addr) * option error) * W
}.

Arguments mkFacades {Addr W} _ _ _.
Arguments Inventory_Reserve {Addr W} _ _ _ _.
Arguments Inventory_Cancel {Addr W} _ _ _.
Arguments Order_Create {Addr W} _ _ _ _ _.

(** Modelled from the spec: the remote contracts of section 6, before
    translation; their errors are raw transport errors. *)
Record Remote (Addr W : Type) : Type := mkRemote {
  Remote_Reserve : string -> Z -> W -> (string * option error) * W;
  Remote_Cancel : string -> W -> option error * W;
  Remote_Create :
    string -> CreateOrderRequest Addr -> list string -> W ->
    (option (Order Addr) * option error) * W
}.

Arguments mkRemote {Addr W} _ _ _.
Arguments Remote_Reserve {Addr W} _ _ _ _.
Arguments Remote_Cancel {Addr W} _ _ _.
Arguments Remote_Create {Addr W} _ _ _ _ _.

(** Modelled from the spec: a facade issues the remote call and runs its
    result through the error translator before returning (section 4.3). *)
Definition facades_of_remote {Addr W : Type} (R : Remote Addr W)
  : Facades Addr W :=
  {| Inventory_Reserve := fun productID quantity w =>
       let '((token, err), w') := Remote_Reserve R productID quantity w in
       ((token, handleGRPCError err), w');
     Inventory_Cancel := fun token w =>
       let '(err, w') := Remote_Cancel R token w in
       (handleGRPCError err, w');
     Order_Create := fun userID draft tokens w =>
       let '((order, err), w') := Remote_Create R userID draft tokens w in
       ((order, handleGRPCError err), w') |}.

(** The facades of client.go, which keep no state between calls. *)
Definition client_facades {Addr : Type} (c : Clients) : Facades Addr unit :=
  {| Inventory_Reserve := fun productID quantity w =>
       (ReserveInventory c productID quantity, w);
     Inventory_Cancel := fun token w => (CancelReservation c token, w);
     Order_Create := fun userID draft tokens w =>
       (grpcclient.CreateOrder c userID draft tokens, w) |}.

(** Any inventory facade together with the order facade of client.go. *)
Definition with_client_CreateOrder {Addr W : Type} (c : Clients)
  (F : Facades Addr W) : Facades Addr W :=
  {| Inventory_Reserve := Inventory_Reserve F;
     Inventory_Cancel := Inventory_Cancel F;
     Order_Create := fun userID draft tokens w =>
       (grpcclient.CreateOrder c userID draft tokens, w) |}.

(** Modelled from the spec: a call the coordinator issues to a facade
    (the inventory and order contracts of section 6). *)
Inductive Call (Addr : Type) : Type :=
| CallReserve (productID : string) (quantity : Z)
| CallCancel (token : string)
| CallCreate (userID : string) (draft : CreateOrderRequest Addr)
    (tokens : list string).

Arguments CallReserve {Addr} _ _.
Arguments CallCancel {Addr} _.
Arguments CallCreate {Addr} _ _ _.

(** Modelled from the spec: what one invocation runs against, the
    backend state and the record of the calls issued so far, oldest
    first. *)
Record Run (Addr W : Type) : Type := mkRun {
  world : W;
  calls : list (Call Addr)
}.

Arguments mkRun {Addr W} _ _.
Arguments world {Addr W} _.
Arguments calls {Addr W} _.

Section Saga.

Context {Addr W : Type} (F : Facades Addr W).

(** Modelled from the spec: the coordinator's calls to the facades, each
    one entered in the record of calls. *)
Definition Reserve (productID : string) (quantity : Z)
  : Stateful (Run Addr W) (string * option error) :=
  fun r =>
    let '(res, w') := Inventory_Reserve F productID quantity (world r) in
    Done (res, mkRun w' (calls r ++ [CallReserve productID quantity])%list).

Definition Cancel (token : string) : Stateful (Run Addr W) (option error) :=
  fun r =>
    let '(err, w') := Inventory_Cancel F token (world r) in
    Done (err, mkRun w' (calls r ++ [CallCancel token])%list).

Definition Create (userID : string) (draft : CreateOrderRequest Addr)
  (tokens : list string)
  : Stateful (Run Addr W) (option (Order Addr) * option error) :=
  fun r =>
    let '(res, w') := Order_Create F userID draft tokens (world r) in
    Done (res, mkRun w' (calls r ++ [CallCreate userID draft tokens])%list).

(** Modelled from the spec: section 4.4, step 1, state
    COLLECTING_RESERVATIONS: reserve each line item in list order,
    appending each token to the ledger; on the first failure stop and
    hand back the ledger so far with the failure. *)
Fixpoint collect (items : list OrderItemRequest) (ledger : list string)
  : Stateful (Run Addr W) (list string * option error) :=
  match items with
  | [] => ret (ledger, None)
  | item :: rest =>
      (res <- Reserve (Req_ProductID item) (Req_Quantity item) ;;
       match snd res with
       | Some e => ret (ledger, Some e)
       | None => collect rest (ledger ++ [fst res])%list
       end)%go
  end.

(** Modelled from the spec: section 4.4, step 3, state COMPENSATING: cancel
    every token of the ledger, oldest first; a failed cancellation does
    not stop the loop and its error is dropped. *)
Fixpoint compensate (ledger : list string) : Stateful (Run Addr W) unit :=
  match ledger with
  | [] => ret tt
  | token :: rest => (Cancel token ;;; compensate rest)%go
  end.

(** Modelled from the spec: sections 4.4 and 6, the coordinator's entry point
    [CreateOrder(userID, draft)].  It ends in DONE with the committed
    order, or in FAILED with the error that triggered compensation. *)
Definition CreateOrder (userID : string) (draft : CreateOrderRequest Addr)
  : Stateful (Run Addr W) (option (Order Addr) * option error) :=
  (collected <- collect (Req_Items draft) [] ;;
   let ledger := fst collected in
   match snd collected with
   | Some e => compensate ledger ;;; ret (None, Some e)
   | None =>
       res <- Create userID draft ledger ;;
       match snd res with
       | None => ret (fst res, None)
       | Some e => compensate ledger ;;; ret (None, Some e)
       end
   end)%go.

(** The reservation calls for [items], issued one after another from the
    backend state [w], all succeed: the tokens they return, in order,
    and the backend state they leave. *)
Fixpoint reserve_all (items : list OrderItemRequest) (w : W)
  : option (list string * W) :=
  match items with
  | [] => Some ([], w)
  | item :: rest =>
      match Inventory_Reserve F (Req_ProductID item) (Req_Quantity item) w with
      | ((token, None), w1) =>
          match reserve_all rest w1 with
          | Some (tokens, w2) => Some (token :: tokens, w2)
          | None => None
          end
      | ((_, Some _), _) => None
      end
  end.

End Saga.

(** The call that reserves a line item, and the calls of each kind in a
    record of calls. *)
Definition reserve_call {Addr : Type} (item : OrderItemRequest) : Call Addr :=
  CallReserve (Req_ProductID item) (Req_Quantity item).

Definition reserves_of {Addr : Type} (l : list (Call Addr))
  : list (string * Z) :=
  flat_map (fun c => match c with CallReserve p q => [(p, q)] | _ => [] end) l.

Definition cancels_of {Addr : Type} (l : list (Call Addr)) : list string :=
  flat_map (fun c => match c with CallCancel t => [t] | _ => [] end) l.

Definition creates_of {Addr : Type} (l : list (Call Addr))
  : list (string * list string) :=
  flat_map
    (fun c => match c with CallCreate u _ ts => [(u, ts)] | _ => [] end) l.

End Coordinator.

(** ** Example backends *)

(** A backend whose inventory is out of stock for product P2, whose
    cancellations fail because the inventory service is unreachable, and
    whose order service is down.  Its state is the list of tokens it has
    handed out. *)
Definition out_of_stock : error :=
  StatusErr (status.New codes.ResourceExhausted "insufficient stock").

Definition unreachable : error :=
  StatusErr (status.New codes.Unavailable "inventory service unreachable").

Definition order_service_down : error :=
  StatusErr (status.New codes.Internal "order service down").

(** Two failures that are not statuses: a refused connection, and an
    error whose [GRPCStatus()] returns nil. *)
Definition refused : error :=
  ErrorString 9 "dial tcp 10.0.0.7:50053: connection refused".

Definition malformed : error := NilStatusErr "status missing".

Definition failing_remote : Coordinator.Remote string (list string) :=
  {| Coordinator.Remote_Reserve := fun productID quantity w =>
       if String.eqb productID "P2" then (("", Some out_of_stock), w)
       else (("T-" +:+ productID, None), (w ++ ["T-" +:+ productID])%list);
     Coordinator.Remote_Cancel := fun token w => (Some unreachable, w);
     Coordinator.Remote_Create := fun userID draft tokens w =>
       ((None, Some order_service_down), w) |}.

Definition draft_P1_P2 : CreateOrderRequest string :=
  {| Req_Items := [mkOrderItemRequest "P1" 2; mkOrderItemRequest "P2" 1];
     Req_ShippingAddr := "1 Main St" |}.

Definition draft_P1_P3 : CreateOrderRequest string :=
  {| Req_Items := [mkOrderItemRequest "P1" 2; mkOrderItemRequest "P3" 1];
     Req_ShippingAddr := "1 Main St" |}.

Definition draft_P1 (quantity : Z) : CreateOrderRequest string :=
  {| Req_Items := [mkOrderItemRequest "P1" quantity];
     Req_ShippingAddr := "1 Main St" |}.

(** A registry with the listing connection missing, and a store in which
    the user connection is READY and the inventory connection is in
    TRANSIENT_FAILURE. *)
Definition some_config : Config :=
  mkConfig "8080" "user:50051" "listing:50052" "inventory:50053".

Definition partial_clients : Clients :=
  {| userConn := Some 1%positive;
     listingConn := None;
     inventoryConn := Some 2%positive;
     config := Some some_config |}.

Definition partial_store : gmap loc ClientConn :=
  <[1%positive := mkConn "user:50051" connectivity.Ready]>
    (<[2%positive := mkConn "inventory:50053" connectivity.TransientFailure]>
       ∅).

(** A dialer that rejects the empty target only and leaves each new
    connection IDLE, and a configuration without an inventory address. *)
Definition empty_target : error := ErrorString 11 "grpc: empty target".

Definition strict_dialer : Dialer :=
  {| dial_error := fun target =>
       if String.eqb target "" then Some empty_target else None;
     dial_state := fun _ => connectivity.Idle |}.

Definition broken_config : Config :=
  mkConfig "" "user:50051" "listing:50052" "".

(** The facades of client.go on the example registry. *)
Definition mock_facades : Coordinator.Facades string unit :=
  Coordinator.client_facades partial_clients.

(** ** Closed connections, as a function on the store *)

(** A connection after its teardown, and the store after the teardown of
    the connection a pointer leads to (the store itself for nil). *)
Definition torn_down (cc : ClientConn) : ClientConn :=
  mkConn (target cc) connectivity.Shutdown.

Definition close_at (p : option loc) (h : gmap loc ClientConn)
  : gmap loc ClientConn :=
  match p with
  | Some l => alter torn_down l h
  | None => h
  end.

(** * Properties *)

(** Running [bind] when its first part returns. *)
Lemma bind_Done {S A B : Type} (m : Stateful S A) (k : A -> Stateful S B)
  (s : S) (a : A) (s' : S) :
  m s = Done (a, s') -> bind m k s = k a s'.
Proof. unfold bind. intros ->. reflexivity. Qed.

(** ** The error translator *)

Lemma handleGRPCError_not_status (e : error) :
  snd (FromError (Some e)) = false -> handleGRPCError (Some e) = Some e.
Proof.
  unfold handleGRPCError. destruct (FromError (Some e)) as [st ok].
  simpl. intros ->. reflexivity.
Qed.

Lemma handleGRPCError_status (e : error) (st : option status.Status) :
  FromError (Some e) = (st, true) ->
  handleGRPCError (Some e) =
    if status.Code st =? codes.NotFound then Some ErrNotFound
    else if (status.Code st =? codes.PermissionDenied)
            || (status.Code st =? codes.Unauthenticated)
    then Some ErrUnauthorized
    else Some ErrInternal.
Proof.
  unfold handleGRPCError. intros ->. reflexivity.
Qed.

(** A failure never translates to "no error". *)
Lemma handleGRPCError_Some (e : error) :
  exists e', handleGRPCError (Some e) = Some e'.
Proof.
  destruct (FromError (Some e)) as [st [|]] eqn:E.
  - rewrite (handleGRPCError_status e st E).
    repeat (match goal with |- context [if ?b then _ else _] => destruct b end);
      eauto.
  - exists e. apply handleGRPCError_not_status. rewrite E. reflexivity.
Qed.

(** C7: a nil failure translates to no error; a failure whose status has
    code NotFound translates to [ErrNotFound]; one whose status has code
    PermissionDenied or Unauthenticated translates to [ErrUnauthorized]. *)
Theorem handleGRPCError_nil_notfound_unauthorized :
  handleGRPCError None = None /\
  (forall e st,
      FromError (Some e) = (st, true) ->
      status.Code st = codes.NotFound ->
      handleGRPCError (Some e) = Some ErrNotFound) /\
  (forall e st,
      FromError (Some e) = (st, true) ->
      status.Code st = codes.PermissionDenied \/
      status.Code st = codes.Unauthenticated ->
      handleGRPCError (Some e) = Some ErrUnauthorized).
Proof.
  split; [reflexivity | split].
  - intros e st E Hc. rewrite (handleGRPCError_status e st E), Hc.
    reflexivity.
  - intros e st E [Hc | Hc]; rewrite (handleGRPCError_status e st E), Hc;
      reflexivity.
Qed.

Lemma handleGRPCError_nil_notfound_unauthorized_witness :
  handleGRPCError None = None /\
  handleGRPCError (Some (StatusErr (status.New codes.NotFound "no such product")))
    = Some ErrNotFound /\
  handleGRPCError
    (Some (StatusErr (status.New codes.PermissionDenied "not the seller")))
    = Some ErrUnauthorized /\
  handleGRPCError
    (Some (WrapErr "login: token expired"
             (StatusErr (status.New codes.Unauthenticated "token expired"))))
    = Some ErrUnauthorized.
Proof.
  destruct handleGRPCError_nil_notfound_unauthorized as (H0 & H1 & H2).
  split; [exact H0 | split; [| split]].
  - eapply H1; reflexivity.
  - eapply H2; [reflexivity | left; reflexivity].
  - eapply H2; [reflexivity | right; reflexivity].
Defined.

(** C2, as stated, fails: a resource-exhausted status is translated to
    [ErrInternal], whose kind is Internal and not Conflict, where the
    table of the specification asks for Conflict. *)
Lemma resource_exhausted_is_not_conflict :
  spec_kind codes.ResourceExhausted = KConflict /\
  handleGRPCError (Some out_of_stock) = Some ErrInternal /\
  kind_of (handleGRPCError (Some out_of_stock)) = Some KInternal /\
  kind_of (handleGRPCError (Some out_of_stock)) <> Some KConflict.
Proof.
  repeat split; try reflexivity. vm_compute. discriminate.
Qed.

(** C2, amended: a failure whose status has code ResourceExhausted or
    InvalidArgument translates to [ErrInternal], of kind Internal,
    whatever its message and whichever service produced it. *)
Theorem handleGRPCError_exhausted_internal (e : error)
  (st : option status.Status) :
  FromError (Some e) = (st, true) ->
  status.Code st = codes.ResourceExhausted \/
  status.Code st = codes.InvalidArgument ->
  handleGRPCError (Some e) = Some ErrInternal /\
  kind_of (handleGRPCError (Some e)) = Some KInternal.
Proof.
  intros E Hc.
  assert (H : handleGRPCError (Some e) = Some ErrInternal).
  { rewrite (handleGRPCError_status e st E).
    destruct Hc as [-> | ->]; reflexivity. }
  rewrite H. split; reflexivity.
Qed.

Lemma handleGRPCError_exhausted_internal_witness :
  (handleGRPCError (Some out_of_stock) = Some ErrInternal /\
   kind_of (handleGRPCError (Some out_of_stock)) = Some KInternal) /\
  (handleGRPCError
     (Some (StatusErr (status.New codes.InvalidArgument "insufficient stock")))
     = Some ErrInternal /\
   kind_of
     (handleGRPCError
        (Some (StatusErr
                 (status.New codes.InvalidArgument "insufficient stock"))))
     = Some KInternal).
Proof.
  split.
  - apply (handleGRPCError_exhausted_internal out_of_stock
             (Some (status.New codes.ResourceExhausted "insufficient stock")));
      [reflexivity | left; reflexivity].
  - apply (handleGRPCError_exhausted_internal
             (StatusErr (status.New codes.InvalidArgument "insufficient stock"))
             (Some (status.New codes.InvalidArgument "insufficient stock")));
      [reflexivity | right; reflexivity].
Defined.

(** No failure at all translates to an error of kind Conflict or
    Canceled: the package has no such error value. *)
Lemma kind_of_never_conflict (err : option error) :
  kind_of err <> Some KConflict /\ kind_of err <> Some KCanceled.
Proof.
  unfold kind_of. destruct err as [e |]; [| split; discriminate].
  repeat case_decide; split; discriminate.
Qed.

(** C3, as stated, fails: a failure that carries no status (a refused
    connection), and one whose status object is malformed, come back
    from the translator as they went in, not as [ErrInternal]. *)
Lemma raw_error_is_propagated :
  snd (FromError (Some refused)) = false /\
  handleGRPCError (Some refused) = Some refused /\
  handleGRPCError (Some refused) <> Some ErrInternal /\
  snd (FromError (Some malformed)) = false /\
  handleGRPCError (Some malformed) = Some malformed /\
  handleGRPCError (Some malformed) <> Some ErrInternal.
Proof.
  repeat split; try reflexivity; vm_compute; discriminate.
Qed.

(** C3, amended: every non-nil failure that [status.FromError] does not
    recognise as a status is returned by the translator unchanged, so the
    caller receives the raw error value. *)
Theorem handleGRPCError_unrecognised_unchanged (e : error) :
  snd (FromError (Some e)) = false ->
  handleGRPCError (Some e) = Some e.
Proof.
  apply handleGRPCError_not_status.
Qed.

Lemma handleGRPCError_unrecognised_unchanged_witness :
  handleGRPCError (Some malformed) = Some malformed.
Proof.
  apply (handleGRPCError_unrecognised_unchanged malformed).
  reflexivity.
Defined.

(** ** The channel registry: health report and shutdown *)

(** Case analysis on a hypothesis [(svc, conn) ∈ services c]. *)
Ltac in_services H :=
  unfold services in H; rewrite !elem_of_cons, elem_of_nil in H;
  destruct H as [H | [H | [H | []]]]; inversion H; subst; clear H.

Lemma valid_fields (h : gmap loc ClientConn) (c : Clients) :
  valid h c <->
  (forall l, userConn c = Some l -> is_Some (h !! l)) /\
  (forall l, listingConn c = Some l -> is_Some (h !! l)) /\
  (forall l, inventoryConn c = Some l -> is_Some (h !! l)).
Proof.
  unfold valid, services. split.
  - intros H. repeat split; intros l E;
      [apply (H "user-service") | apply (H "listing-service")
       | apply (H "inventory-service")]; rewrite <- E, !elem_of_cons; auto.
  - intros (Hu & Hl & Hi) svc l Hin. in_services Hin; eauto.
Qed.

Lemma state_label_healthy (s : connectivity.State) :
  String.eqb (connectivity.String s) "READY"
  || String.eqb (connectivity.String s) "IDLE" = true
  <-> s = connectivity.Ready \/ s = connectivity.Idle.
Proof.
  unfold connectivity.String, connectivity.Ready, connectivity.Idle,
    connectivity.Connecting, connectivity.TransientFailure,
    connectivity.Shutdown.
  repeat (match goal with
          | |- context [?a =? ?b] => destruct (Z.eqb_spec a b)
          end); simpl; split; intros H; try discriminate; try lia; auto.
Qed.

Lemma isHealthy_spec (h : gmap loc ClientConn) (conn : option loc) :
  (forall l, conn = Some l -> is_Some (h !! l)) ->
  exists b, isHealthy conn h = Done (b, h) /\
    (b = true <->
     exists l cc, conn = Some l /\ h !! l = Some cc /\
       (state cc = connectivity.Ready \/ state cc = connectivity.Idle)).
Proof.
  intros Hv. destruct conn as [l |].
  - destruct (Hv l eq_refl) as [cc Hcc].
    unfold isHealthy, GetState, bind, deref, ret. rewrite Hcc.
    eexists. split; [reflexivity |].
    rewrite state_label_healthy. split.
    + intros H. exists l, cc. auto.
    + intros (l' & cc' & El & Ecc & H). congruence.
  - exists false. split; [reflexivity |].
    split; [discriminate | intros (l & cc & E & _); discriminate].
Qed.

(** C5: the health report has an entry for each of the three services,
    and the entry is true exactly when the service's connection is
    present and its state is READY or IDLE; it is false for every other
    state, for a state with no label, and for a nil connection. *)
Theorem HealthCheck_true_iff_ready_or_idle (h : gmap loc ClientConn)
  (c : Clients) :
  valid h c ->
  exists m : gmap string bool,
    HealthCheck c h = Done (m, h) /\
    (forall svc, is_Some (m !! svc) <-> exists conn, (svc, conn) ∈ services c) /\
    (forall svc conn, (svc, conn) ∈ services c ->
       exists b, m !! svc = Some b /\
         (b = true <->
          exists l cc, conn = Some l /\ h !! l = Some cc /\
            (state cc = connectivity.Ready \/ state cc = connectivity.Idle))).
Proof.
  intros Hv. apply valid_fields in Hv. destruct Hv as (Hu & Hl & Hi).
  destruct (isHealthy_spec h (userConn c) Hu) as (bu & Eu & Su).
  destruct (isHealthy_spec h (listingConn c) Hl) as (bl & El & Sl).
  destruct (isHealthy_spec h (inventoryConn c) Hi) as (bi & Ei & Si).
  eexists. split; [| split].
  - unfold HealthCheck, bind. rewrite Eu, El, Ei. reflexivity.
  - intros svc. unfold services. split.
    + intros [b Hb].
      destruct (decide (svc = "user-service")) as [-> |];
        [exists (userConn c); rewrite !elem_of_cons; auto |].
      destruct (decide (svc = "listing-service")) as [-> |];
        [exists (listingConn c); rewrite !elem_of_cons; auto |].
      destruct (decide (svc = "inventory-service")) as [-> |];
        [exists (inventoryConn c); rewrite !elem_of_cons; auto |].
      rewrite !lookup_insert_ne, lookup_empty in Hb by congruence.
      discriminate.
    + intros [conn Hin]. in_services Hin; simplify_map_eq; eauto.
  - intros svc conn Hin. in_services Hin; simplify_map_eq; eauto.
Qed.

Lemma partial_valid : valid partial_store partial_clients.
Proof.
  apply valid_fields. repeat split; intros l E; inversion E; subst;
    vm_compute; eauto.
Qed.

Lemma HealthCheck_true_iff_ready_or_idle_witness :
  valid partial_store partial_clients /\
  exists m : gmap string bool,
    HealthCheck partial_clients partial_store = Done (m, partial_store) /\
    (forall svc,
        is_Some (m !! svc) <->
        exists conn, (svc, conn) ∈ services partial_clients) /\
    (forall svc conn, (svc, conn) ∈ services partial_clients ->
       exists b, m !! svc = Some b /\
         (b = true <->
          exists l cc, conn = Some l /\ partial_store !! l = Some cc /\
            (state cc = connectivity.Ready \/ state cc = connectivity.Idle))).
Proof.
  split; [exact partial_valid |].
  apply (HealthCheck_true_iff_ready_or_idle partial_store partial_clients).
  exact partial_valid.
Defined.

(** The report on the example registry, entry by entry. *)
Example HealthCheck_partial :
  HealthCheck partial_clients partial_store
  = Done (<["user-service" := true]>
            (<["listing-service" := false]>
               (<["inventory-service" := false]> ∅)), partial_store).
Proof. reflexivity. Qed.

Lemma torn_down_idemp (cc : ClientConn) : torn_down (torn_down cc) = torn_down cc.
Proof. reflexivity. Qed.

Lemma close_at_lookup (p : option loc) (h : gmap loc ClientConn) (j : loc) :
  close_at p h !! j
  = if decide (p = Some j) then torn_down <$> h !! j else h !! j.
Proof.
  destruct p as [l |]; unfold close_at.
  - rewrite lookup_alter. repeat case_decide; congruence.
  - case_decide; [discriminate | reflexivity].
Qed.

Lemma close_at_is_Some (p : option loc) (h : gmap loc ClientConn) (j : loc) :
  is_Some (close_at p h !! j) <-> is_Some (h !! j).
Proof.
  rewrite close_at_lookup. case_decide; [| reflexivity].
  apply fmap_is_Some.
Qed.

(** One guarded call [if conn != nil { conn.Close() }]. *)
Lemma guarded_Close (p : option loc) (h : gmap loc ClientConn) :
  (forall l, p = Some l -> is_Some (h !! l)) ->
  (if p is Some _ then ClientConn_Close p ;;; ret tt else ret tt)%go h
  = Done (tt, close_at p h).
Proof.
  intros Hv. destruct p as [l |]; [| reflexivity].
  destruct (Hv l eq_refl) as [[t s] Hcc].
  unfold ClientConn_Close, bind, deref, assign, ret. rewrite Hcc. simpl.
  destruct (Z.eqb_spec s connectivity.Shutdown) as [-> | Hs]; simpl.
  - f_equal. f_equal. apply map_eq. intros j. rewrite lookup_alter.
    destruct (decide (l = j)) as [<- |]; [| reflexivity].
    rewrite Hcc. reflexivity.
  - f_equal. f_equal. apply map_eq. intros j. rewrite lookup_alter.
    destruct (decide (l = j)) as [<- |].
    + rewrite lookup_insert_eq, Hcc. reflexivity.
    + rewrite lookup_insert_ne by assumption. reflexivity.
Qed.

Lemma Close_store (h : gmap loc ClientConn) (c : Clients) :
  valid h c ->
  Close (Some c) h
  = Done (tt, close_at (inventoryConn c)
                (close_at (listingConn c) (close_at (userConn c) h))).
Proof.
  intros Hv. apply valid_fields in Hv. destruct Hv as (Hu & Hl & Hi).
  unfold Close. cbv beta iota.
  erewrite bind_Done by (apply guarded_Close; assumption).
  erewrite bind_Done
    by (apply guarded_Close; intros l E; apply close_at_is_Some; auto).
  apply guarded_Close. intros l E. do 2 apply close_at_is_Some. auto.
Qed.

Lemma Close_valid (h : gmap loc ClientConn) (c : Clients) :
  valid h c ->
  valid (close_at (inventoryConn c)
           (close_at (listingConn c) (close_at (userConn c) h))) c.
Proof.
  intros Hv svc l Hin. do 3 apply close_at_is_Some. eauto.
Qed.

(** C8, as stated, fails: when startup fails part of the way (the user
    and listing services are dialled, the inventory target is rejected),
    [NewClients] returns a nil registry, and [Close] on it panics. *)
Lemma Close_panics_after_failed_startup :
  exists h' : gmap loc ClientConn,
    NewClients strict_dialer (Some broken_config) partial_store
    = Done ((None, Some empty_target), h') /\
    Close None h' = Panic nil_deref.
Proof.
  eexists. split; [vm_compute; reflexivity | reflexivity].
Qed.

(** C8, amended: on a registry that is not nil, whose connection
    pointers are nil or valid, [Close] returns without a panic;
    afterwards every connection the registry holds is in state SHUTDOWN,
    connections it does not hold are untouched, and a second [Close]
    returns as well and changes nothing. *)
Theorem Close_idempotent_and_safe (h : gmap loc ClientConn) (c : Clients) :
  valid h c ->
  exists h',
    Close (Some c) h = Done (tt, h') /\
    (forall svc l, (svc, Some l) ∈ services c ->
       exists cc, h' !! l = Some cc /\ state cc = connectivity.Shutdown) /\
    (forall l, (forall svc, (svc, Some l) ∉ services c) -> h' !! l = h !! l) /\
    Close (Some c) h' = Done (tt, h').
Proof.
  intros Hv. pose proof (Close_valid h c Hv) as Hv'.
  eexists. split; [apply Close_store; exact Hv | split; [| split]].
  - intros svc l Hin. destruct (Hv svc l Hin) as [cc Hcc].
    exists (torn_down cc). split; [| reflexivity].
    rewrite !close_at_lookup, Hcc.
    in_services Hin; repeat case_decide; reflexivity || congruence.
  - intros l Hnot. rewrite !close_at_lookup.
    assert (Hu : userConn c <> Some l).
    { intros E. apply (Hnot "user-service"). unfold services.
      rewrite <- E, !elem_of_cons. auto. }
    assert (Hl : listingConn c <> Some l).
    { intros E. apply (Hnot "listing-service"). unfold services.
      rewrite <- E, !elem_of_cons. auto. }
    assert (Hi : inventoryConn c <> Some l).
    { intros E. apply (Hnot "inventory-service"). unfold services.
      rewrite <- E, !elem_of_cons. auto. }
    repeat case_decide; congruence.
  - rewrite (Close_store _ c Hv'). f_equal. f_equal.
    apply map_eq. intros j. rewrite !close_at_lookup.
    repeat case_decide; try reflexivity;
      destruct (h !! j) as [cc |]; reflexivity.
Qed.

Lemma Close_idempotent_and_safe_witness :
  valid partial_store partial_clients /\
  exists h',
    Close (Some partial_clients) partial_store = Done (tt, h') /\
    (forall svc l, (svc, Some l) ∈ services partial_clients ->
       exists cc, h' !! l = Some cc /\ state cc = connectivity.Shutdown) /\
    (forall l, (forall svc, (svc, Some l) ∉ services partial_clients) ->
       h' !! l = partial_store !! l) /\
    Close (Some partial_clients) h' = Done (tt, h').
Proof.
  split; [exact partial_valid |].
  apply (Close_idempotent_and_safe partial_store partial_clients).
  exact partial_valid.
Defined.

(** A second [Close] finds each connection already closed: the call on
    the connection reports [ErrClientConnClosing], which [Close] drops. *)
Example ClientConn_Close_twice :
  exists h1,
    ClientConn_Close (Some 1%positive) partial_store = Done (None, h1) /\
    ClientConn_Close (Some 1%positive) h1
    = Done (Some ErrClientConnClosing, h1).
Proof. eexists. split; reflexivity. Qed.

(** Without its guard, the call on a nil connection panics. *)
Example ClientConn_Close_nil (h : gmap loc ClientConn) :
  ClientConn_Close None h = Panic nil_deref.
Proof. reflexivity. Qed.

(** ** The facades of client.go *)

(** C9: [GetProduct] returns [ErrNotFound] exactly for the id
    "not-found", then with a nil product; for every other id it returns
    a product whose ID is the requested id, and no error. *)
Theorem GetProduct_not_found_iff (c : Clients) (id : string) :
  (snd (GetProduct c id) = Some ErrNotFound <-> id = "not-found") /\
  (id = "not-found" -> GetProduct c id = (None, Some ErrNotFound)) /\
  (id <> "not-found" ->
   exists p, GetProduct c id = (Some p, None) /\ Product_ID p = id).
Proof.
  unfold GetProduct. destruct (String.eqb_spec id "not-found") as [E | E].
  - repeat split; auto. intros H. contradiction.
  - repeat split; try (simpl; intros H; congruence).
    intros _. eexists. split; reflexivity.
Qed.

Lemma GetProduct_not_found_iff_witness :
  GetProduct partial_clients "not-found" = (None, Some ErrNotFound) /\
  exists p, GetProduct partial_clients "prod-001" = (Some p, None) /\
            Product_ID p = "prod-001".
Proof.
  destruct (GetProduct_not_found_iff partial_clients "not-found")
    as (_ & H1 & _).
  destruct (GetProduct_not_found_iff partial_clients "prod-001")
    as (_ & _ & H2).
  split; [apply H1; reflexivity | apply H2; discriminate].
Defined.

(** C10: [ReserveInventory] succeeds for every product and quantity, and
    its token is "reservation-" followed by the product id: the token
    does not depend on the quantity nor on the call, only on the
    product. *)
Theorem ReserveInventory_total_deterministic (c : Clients)
  (productID : string) (quantity : Z) :
  ReserveInventory c productID quantity
  = ("reservation-" +:+ productID, None) /\
  forall (c' : Clients) (quantity' : Z),
    ReserveInventory c' productID quantity'
    = ReserveInventory c productID quantity.
Proof.
  split; reflexivity.
Qed.

Example ReserveInventory_P1 :
  ReserveInventory partial_clients "P1" 2 = ("reservation-P1", None) /\
  ReserveInventory partial_clients "P1" (-7) = ("reservation-P1", None).
Proof. split; reflexivity. Qed.

(** [CreateOrder] of client.go never fails, and the order it returns
    carries the reservation ids it was given. *)
Lemma client_CreateOrder_ids {Addr : Type} (c : Clients) (userID : string)
  (req : CreateOrderRequest Addr) (reservationIDs : list string) :
  exists o, grpcclient.CreateOrder c userID req reservationIDs = (Some o, None)
            /\ Order_ReservationIDs o = reservationIDs
            /\ Order_UserID o = userID.
Proof.
  unfold grpcclient.CreateOrder.
  destruct (fold_left CreateOrder_step (Req_Items req) ([], 0%float))
    as [items total].
  eexists. repeat split.
Qed.

(** ** The order creation coordinator *)

Import Coordinator.

Section SagaProperties.

Context {Addr W : Type}.

Implicit Types (F : Facades Addr W) (items : list OrderItemRequest).
Implicit Types (ledger tokens : list string) (log : list (Call Addr)).

Lemma reserves_of_app (l1 l2 : list (Call Addr)) :
  reserves_of (l1 ++ l2) = (reserves_of l1 ++ reserves_of l2)%list.
Proof. apply flat_map_app. Qed.

Lemma cancels_of_app (l1 l2 : list (Call Addr)) :
  cancels_of (l1 ++ l2) = (cancels_of l1 ++ cancels_of l2)%list.
Proof. apply flat_map_app. Qed.

Lemma creates_of_app (l1 l2 : list (Call Addr)) :
  creates_of (l1 ++ l2) = (creates_of l1 ++ creates_of l2)%list.
Proof. apply flat_map_app. Qed.

Lemma calls_of_reserves items :
  reserves_of (Addr := Addr) (map reserve_call items)
  = map (fun item => (Req_ProductID item, Req_Quantity item)) items /\
  cancels_of (Addr := Addr) (map reserve_call items) = [] /\
  creates_of (Addr := Addr) (map reserve_call items) = [].
Proof.
  unfold reserves_of, cancels_of, creates_of.
  induction items as [| item rest (IH1 & IH2 & IH3)]; [repeat split |].
  cbn [map flat_map reserve_call app]. rewrite IH1. auto.
Qed.

Lemma calls_of_cancels tokens :
  reserves_of (Addr := Addr) (map CallCancel tokens) = [] /\
  cancels_of (Addr := Addr) (map CallCancel tokens) = tokens /\
  creates_of (Addr := Addr) (map CallCancel tokens) = [].
Proof.
  unfold reserves_of, cancels_of, creates_of.
  induction tokens as [| t rest (IH1 & IH2 & IH3)]; [repeat split |].
  cbn [map flat_map app]. rewrite IH2. auto.
Qed.

(** Compensation issues one cancellation for each token of the ledger,
    oldest first, whatever the cancellations return. *)
Lemma compensate_calls F tokens (r : Run Addr W) :
  exists w', compensate F tokens r
             = Done (tt, mkRun w' (calls r ++ map CallCancel tokens)%list).
Proof.
  revert r. induction tokens as [| t rest IH]; intros r.
  - exists (world r). cbn. rewrite app_nil_r. destruct r; reflexivity.
  - cbn. unfold bind, Cancel.
    destruct (Inventory_Cancel F t (world r)) as [err w1].
    destruct (IH (mkRun w1 (calls r ++ [CallCancel t])%list)) as [w' E].
    exists w'. rewrite E. cbn. rewrite <- app_assoc. reflexivity.
Qed.

Lemma reserve_all_length F items w tokens w1 :
  reserve_all F items w = Some (tokens, w1) -> length tokens = length items.
Proof.
  revert w tokens. induction items as [| item rest IH]; intros w tokens.
  - cbn. intros [= <- _]. reflexivity.
  - cbn.
    destruct (Inventory_Reserve F _ _ w) as [[token [e |]] w0];
      [discriminate |].
    destruct (reserve_all F rest w0) as [[toks w2] |] eqn:E; [| discriminate].
    intros [= <- <-]. cbn. f_equal. eapply IH. exact E.
Qed.

(** Collection over items whose reservations all succeed. *)
Lemma collect_all F items ledger w log tokens w1 :
  reserve_all F items w = Some (tokens, w1) ->
  collect F items ledger (mkRun w log)
  = Done ((ledger ++ tokens, None)%list,
          mkRun w1 (log ++ map reserve_call items)%list).
Proof.
  revert ledger w log tokens.
  induction items as [| item rest IH]; intros ledger w log tokens.
  - cbn. intros [= <- <-]. rewrite !app_nil_r. reflexivity.
  - cbn. unfold bind, Reserve. cbn.
    destruct (Inventory_Reserve F _ _ w) as [[token [e |]] w0];
      [discriminate |].
    destruct (reserve_all F rest w0) as [[toks w2] |] eqn:E; [| discriminate].
    intros [= <- <-]. cbn. rewrite (IH _ _ _ _ E).
    rewrite <- !app_assoc. reflexivity.
Qed.

(** Collection stops at the first reservation that fails. *)
Lemma collect_stops F pre item post ledger w log tokens w1 token e w2 :
  reserve_all F pre w = Some (tokens, w1) ->
  Inventory_Reserve F (Req_ProductID item) (Req_Quantity item) w1
  = ((token, Some e), w2) ->
  collect F (pre ++ item :: post) ledger (mkRun w log)
  = Done ((ledger ++ tokens, Some e)%list,
          mkRun w2 (log ++ map reserve_call (pre ++ [item]))%list).
Proof.
  revert ledger w log tokens.
  induction pre as [| x rest IH]; intros ledger w log tokens.
  - cbn. intros [= <- <-] Hfail. unfold bind, Reserve. cbn.
    rewrite Hfail. cbn. rewrite app_nil_r. reflexivity.
  - cbn. unfold bind, Reserve. cbn.
    destruct (Inventory_Reserve F _ _ w) as [[tk [e0 |]] w0];
      [discriminate |].
    destruct (reserve_all F rest w0) as [[toks w3] |] eqn:E; [| discriminate].
    intros [= <- <-] Hfail. cbn. rewrite (IH _ _ _ _ E Hfail).
    rewrite <- !app_assoc. reflexivity.
Qed.

(** C1: when the reservation calls for items 1..k-1 succeed and the call
    for item k fails, the coordinator returns no order and the item-k
    failure as translated by [handleGRPCError]; the calls it issued are
    the reservations for items 1..k in order, then one cancellation for
    each of the k-1 tokens acquired, oldest first: no reservation for a
    later item and no call to the order service. *)
Theorem CreateOrder_reservation_failure (R : Remote Addr W)
  (userID : string) (draft : CreateOrderRequest Addr) (k : nat)
  (item : OrderItemRequest) (w : W) log tokens (w1 : W)
  (token : string) (e : error) (w2 : W) :
  (1 <= k)%nat ->
  Req_Items draft !! (k - 1)%nat = Some item ->
  reserve_all (facades_of_remote R) (take (k - 1) (Req_Items draft)) w
  = Some (tokens, w1) ->
  Remote_Reserve R (Req_ProductID item) (Req_Quantity item) w1
  = ((token, Some e), w2) ->
  exists (r' : Run Addr W) (new : list (Call Addr)),
    CreateOrder (facades_of_remote R) userID draft (mkRun w log)
    = Done ((None, handleGRPCError (Some e)), r') /\
    calls r' = (log ++ new)%list /\
    new = (map reserve_call (take k (Req_Items draft))
           ++ map CallCancel tokens)%list /\
    reserves_of new
    = map (fun it => (Req_ProductID it, Req_Quantity it))
        (take k (Req_Items draft)) /\
    cancels_of new = tokens /\
    length tokens = (k - 1)%nat /\
    creates_of new = [].
Proof.
  intros Hk Hitem Hpre Hfail.
  destruct k as [| i]; [lia |].
  replace (S i - 1)%nat with i in * by lia.
  destruct (handleGRPCError_Some e) as [e' He'].
  assert (Hfacade :
    Inventory_Reserve (facades_of_remote R)
      (Req_ProductID item) (Req_Quantity item) w1 = ((token, Some e'), w2)).
  { cbn. rewrite Hfail, He'. reflexivity. }
  pose proof (take_drop_middle _ _ _ Hitem) as Hsplit.
  pose proof (take_S_r _ _ _ Hitem) as Htake.
  pose proof (collect_stops (facades_of_remote R) _ item
                (drop (S i) (Req_Items draft)) [] w log _ _ _ _ _
                Hpre Hfacade) as Hcollect.
  rewrite Hsplit, <- Htake in Hcollect.
  destruct (compensate_calls (facades_of_remote R) tokens
              (mkRun w2 (log ++ map reserve_call (take (S i) (Req_Items draft)))))
    as [w3 Hcomp].
  do 2 eexists. split; [| split; [| split; [reflexivity |]]].
  - unfold CreateOrder. erewrite bind_Done by exact Hcollect.
    cbn [fst snd app]. erewrite bind_Done by exact Hcomp.
    rewrite He'. reflexivity.
  - cbn. rewrite <- app_assoc. reflexivity.
  - rewrite reserves_of_app, cancels_of_app, creates_of_app.
    destruct (calls_of_reserves (take (S i) (Req_Items draft)))
      as (-> & -> & ->).
    destruct (calls_of_cancels tokens) as (-> & -> & ->).
    rewrite app_nil_r. repeat split.
    rewrite (reserve_all_length _ _ _ _ _ Hpre).
    apply length_take_le. apply lookup_lt_Some in Hitem. lia.
Qed.

(** C4: when all N reservation calls succeed and the call to the order
    service then fails, the coordinator returns no order and that
    failure, whatever the cancellations return; the calls it issued are
    the N reservations, the one call to the order service with the N
    tokens, then one cancellation for each of the N tokens in the order
    in which they were acquired. *)
Theorem CreateOrder_commit_failure (F : Facades Addr W)
  (userID : string) (draft : CreateOrderRequest Addr) (w : W) log tokens
  (w1 : W) (order : option (Order Addr)) (e : error) (w2 : W) :
  reserve_all F (Req_Items draft) w = Some (tokens, w1) ->
  Order_Create F userID draft tokens w1 = ((order, Some e), w2) ->
  exists (r' : Run Addr W) (new : list (Call Addr)),
    CreateOrder F userID draft (mkRun w log) = Done ((None, Some e), r') /\
    calls r' = (log ++ new)%list /\
    new = (map reserve_call (Req_Items draft)
           ++ [CallCreate userID draft tokens]
           ++ map CallCancel tokens)%list /\
    cancels_of new = tokens /\
    length tokens = length (Req_Items draft) /\
    creates_of new = [(userID, tokens)].
Proof.
  intros Hall Hcreate.
  pose proof (collect_all F _ [] w log _ _ Hall) as Hcollect.
  destruct (compensate_calls F tokens
              (mkRun w2 ((log ++ map reserve_call (Req_Items draft))
                         ++ [CallCreate userID draft tokens])))
    as [w3 Hcomp].
  do 2 eexists. split; [| split; [| split; [reflexivity |]]].
  - unfold CreateOrder. erewrite bind_Done by exact Hcollect.
    cbn [fst snd app].
    erewrite bind_Done by (unfold Create; cbn; rewrite Hcreate; reflexivity).
    cbn [fst snd]. erewrite bind_Done by exact Hcomp. reflexivity.
  - cbn. rewrite <- !app_assoc. reflexivity.
  - rewrite !cancels_of_app, !creates_of_app.
    destruct (calls_of_reserves (Req_Items draft)) as (_ & -> & ->).
    destruct (calls_of_cancels tokens) as (_ & -> & ->).
    unfold cancels_of, creates_of. cbn. repeat split.
    apply (reserve_all_length _ _ _ _ _ Hall).
Qed.

(** With the order facade of client.go, an invocation whose reservations
    all succeed commits: it returns the order, issues no cancellation,
    and the order carries the ledger. *)
Lemma CreateOrder_commit (c : Clients) (F : Facades Addr W)
  (userID : string) (draft : CreateOrderRequest Addr) (w : W) log tokens
  (w1 : W) :
  reserve_all F (Req_Items draft) w = Some (tokens, w1) ->
  exists o,
    CreateOrder (with_client_CreateOrder c F) userID draft (mkRun w log)
    = Done ((Some o, None),
            mkRun w1 (log ++ map reserve_call (Req_Items draft)
                      ++ [CallCreate userID draft tokens])%list) /\
    Order_ReservationIDs o = tokens.
Proof.
  intros Hall.
  assert (Hall' : reserve_all (with_client_CreateOrder c F)
                    (Req_Items draft) w = Some (tokens, w1)) by exact Hall.
  pose proof (collect_all _ _ [] w log _ _ Hall') as Hcollect.
  destruct (client_CreateOrder_ids c userID draft tokens) as (o & Eo & Hids & _).
  exists o. split; [| exact Hids].
  unfold CreateOrder. erewrite bind_Done by exact Hcollect.
  cbn [fst snd app]. unfold bind, Create. cbn. rewrite Eo. cbn.
  rewrite <- app_assoc. reflexivity.
Qed.

(** C6, amended: when every reservation succeeds, the coordinator over
    the order facade of client.go returns an order whose reservation ids
    are exactly the tokens acquired in that invocation, in acquisition
    order, and cancels nothing; for two invocations, the tokens the two
    orders share are those that the inventory facade issued in both. *)
Theorem CreateOrder_committed_tokens (c : Clients) (F : Facades Addr W)
  (userID userID' : string) (draft draft' : CreateOrderRequest Addr)
  (w w' : W) log log' tokens tokens' (w1 w1' : W) :
  reserve_all F (Req_Items draft) w = Some (tokens, w1) ->
  reserve_all F (Req_Items draft') w' = Some (tokens', w1') ->
  exists (o o' : Order Addr) (r r' : Run Addr W),
    CreateOrder (with_client_CreateOrder c F) userID draft (mkRun w log)
    = Done ((Some o, None), r) /\
    CreateOrder (with_client_CreateOrder c F) userID' draft' (mkRun w' log')
    = Done ((Some o', None), r') /\
    Order_ReservationIDs o = tokens /\
    Order_ReservationIDs o' = tokens' /\
    cancels_of (drop (length log) (calls r)) = [] /\
    cancels_of (drop (length log') (calls r')) = [] /\
    (forall t, t ∈ Order_ReservationIDs o /\ t ∈ Order_ReservationIDs o'
               <-> t ∈ tokens /\ t ∈ tokens').
Proof.
  intros H H'.
  destruct (CreateOrder_commit c F userID draft w log _ _ H) as (o & E & Ho).
  destruct (CreateOrder_commit c F userID' draft' w' log' _ _ H')
    as (o' & E' & Ho').
  exists o, o'. do 2 eexists.
  split; [exact E | split; [exact E' |]].
  cbn [calls]. rewrite !drop_app_length, !cancels_of_app, Ho, Ho'.
  destruct (calls_of_reserves (Req_Items draft)) as (_ & -> & _).
  destruct (calls_of_reserves (Req_Items draft')) as (_ & -> & _).
  repeat split; tauto.
Qed.

End SagaProperties.

Lemma CreateOrder_reservation_failure_witness :
  (1 <= 2)%nat /\
  Req_Items draft_P1_P2 !! (2 - 1)%nat = Some (mkOrderItemRequest "P2" 1) /\
  reserve_all (facades_of_remote failing_remote)
    (take (2 - 1) (Req_Items draft_P1_P2)) [] = Some (["T-P1"], ["T-P1"]) /\
  Remote_Reserve failing_remote "P2" 1 ["T-P1"]
  = (("", Some out_of_stock), ["T-P1"]) /\
  exists (r' : Run string (list string)) (new : list (Call string)),
    CreateOrder (facades_of_remote failing_remote) "alice" draft_P1_P2
      (mkRun [] [])
    = Done ((None, handleGRPCError (Some out_of_stock)), r') /\
    calls r' = ([] ++ new)%list /\
    new = (map reserve_call (take 2 (Req_Items draft_P1_P2))
           ++ map CallCancel ["T-P1"])%list /\
    reserves_of new
    = map (fun it => (Req_ProductID it, Req_Quantity it))
        (take 2 (Req_Items draft_P1_P2)) /\
    cancels_of new = ["T-P1"] /\
    length ["T-P1"] = (2 - 1)%nat /\
    creates_of new = [].
Proof.
  split; [lia |]. split; [reflexivity |]. split; [reflexivity |].
  split; [reflexivity |].
  apply (CreateOrder_reservation_failure failing_remote "alice" draft_P1_P2
           2%nat (mkOrderItemRequest "P2" 1) [] [] ["T-P1"] ["T-P1"]
           "" out_of_stock ["T-P1"]);
    [lia | reflexivity | reflexivity | reflexivity].
Defined.

(** The scenario of the specification, run: P1 is reserved, P2 is out of
    stock; the one token is cancelled once, the order service is never
    called, and the caller receives [ErrInternal], although the
    cancellation itself failed with another error. *)
Example CreateOrder_out_of_stock_run :
  CreateOrder (facades_of_remote failing_remote) "alice" draft_P1_P2
    (mkRun [] [])
  = Done ((None, Some ErrInternal),
          mkRun ["T-P1"]
            [CallReserve "P1" 2; CallReserve "P2" 1; CallCancel "T-P1"]).
Proof. reflexivity. Qed.

Lemma CreateOrder_commit_failure_witness :
  reserve_all (facades_of_remote failing_remote) (Req_Items draft_P1_P3) []
  = Some (["T-P1"; "T-P3"], ["T-P1"; "T-P3"]) /\
  Order_Create (facades_of_remote failing_remote) "alice" draft_P1_P3
    ["T-P1"; "T-P3"] ["T-P1"; "T-P3"]
  = ((None, Some ErrInternal), ["T-P1"; "T-P3"]) /\
  exists (r' : Run string (list string)) (new : list (Call string)),
    CreateOrder (facades_of_remote failing_remote) "alice" draft_P1_P3
      (mkRun [] [])
    = Done ((None, Some ErrInternal), r') /\
    calls r' = ([] ++ new)%list /\
    new = (map reserve_call (Req_Items draft_P1_P3)
           ++ [CallCreate "alice" draft_P1_P3 ["T-P1"; "T-P3"]]
           ++ map CallCancel ["T-P1"; "T-P3"])%list /\
    cancels_of new = ["T-P1"; "T-P3"] /\
    length ["T-P1"; "T-P3"] = length (Req_Items draft_P1_P3) /\
    creates_of new = [("alice", ["T-P1"; "T-P3"])].
Proof.
  split; [reflexivity |]. split; [reflexivity |].
  apply (CreateOrder_commit_failure (facades_of_remote failing_remote)
           "alice" draft_P1_P3 [] [] ["T-P1"; "T-P3"] ["T-P1"; "T-P3"]
           None ErrInternal ["T-P1"; "T-P3"]);
    reflexivity.
Defined.

(** The same run, evaluated: both cancellations fail with [unreachable],
    and the error returned is still that of the order service. *)
Example CreateOrder_order_service_down_run :
  CreateOrder (facades_of_remote failing_remote) "alice" draft_P1_P3
    (mkRun [] [])
  = Done ((None, Some ErrInternal),
          mkRun ["T-P1"; "T-P3"]
            [CallReserve "P1" 2; CallReserve "P3" 1;
             CallCreate "alice" draft_P1_P3 ["T-P1"; "T-P3"];
             CallCancel "T-P1"; CallCancel "T-P3"]) /\
  Inventory_Cancel (facades_of_remote failing_remote) "T-P1" ["T-P1"; "T-P3"]
  = (Some ErrInternal, ["T-P1"; "T-P3"]) /\
  Remote_Cancel failing_remote "T-P1" ["T-P1"; "T-P3"]
  = (Some unreachable, ["T-P1"; "T-P3"]).
Proof. repeat split. Qed.

(** C6, as stated, fails: two invocations over the facades of client.go
    that both order product P1 commit two orders, and the token
    "reservation-P1" is attached to both. *)
Lemma token_attached_to_two_orders :
  exists (o o' : Order string) (r r' : Run string unit),
    CreateOrder mock_facades "alice" (draft_P1 2)
      (mkRun tt [])
    = Done ((Some o, None), r) /\
    CreateOrder mock_facades "bob" (draft_P1 1) r
    = Done ((Some o', None), r') /\
    Order_ReservationIDs o = ["reservation-P1"] /\
    Order_ReservationIDs o' = ["reservation-P1"] /\
    "reservation-P1" ∈ Order_ReservationIDs o /\
    "reservation-P1" ∈ Order_ReservationIDs o'.
Proof.
  do 4 eexists. split; [vm_compute; reflexivity |].
  split; [vm_compute; reflexivity |].
  cbn. repeat split; apply list_elem_of_here.
Qed.

Lemma CreateOrder_committed_tokens_witness :
  reserve_all mock_facades (Req_Items (draft_P1 2)) tt
  = Some (["reservation-P1"], tt) /\
  reserve_all mock_facades (Req_Items draft_P1_P3) tt
  = Some (["reservation-P1"; "reservation-P3"], tt) /\
  exists (o o' : Order string) (r r' : Run string unit),
    CreateOrder (with_client_CreateOrder partial_clients mock_facades)
      "alice" (draft_P1 2) (mkRun tt [])
    = Done ((Some o, None), r) /\
    CreateOrder (with_client_CreateOrder partial_clients mock_facades)
      "bob" draft_P1_P3 (mkRun tt [])
    = Done ((Some o', None), r') /\
    Order_ReservationIDs o = ["reservation-P1"] /\
    Order_ReservationIDs o' = ["reservation-P1"; "reservation-P3"] /\
    cancels_of (drop (length ([] : list (Call string))) (calls r)) = [] /\
    cancels_of (drop (length ([] : list (Call string))) (calls r')) = [] /\
    (forall t, t ∈ Order_ReservationIDs o /\ t ∈ Order_ReservationIDs o'
               <-> t ∈ ["reservation-P1"]
                   /\ t ∈ ["reservation-P1"; "reservation-P3"]).
Proof.
  split; [reflexivity |]. split; [reflexivity |].
  apply (CreateOrder_committed_tokens partial_clients
           mock_facades "alice" "bob"
           (draft_P1 2) draft_P1_P3 tt tt [] []
           ["reservation-P1"] ["reservation-P1"; "reservation-P3"] tt tt);
    reflexivity.
Defined.

(** * Further properties of the package *)

(** ** The error translator, beyond its table *)

(** X1: translating twice is translating once: what the translator returns
    (a sentinel, or the failure it passed through) is returned as it is
    when translated again. *)
Theorem handleGRPCError_idempotent (err : option error) :
  handleGRPCError (handleGRPCError err) = handleGRPCError err.
Proof.
  destruct err as [e |]; [| reflexivity].
  destruct (FromError (Some e)) as [st [|]] eqn:E.
  - rewrite (handleGRPCError_status e st E).
    repeat (match goal with |- context [if ?b then _ else _] => destruct b end);
      reflexivity.
  - assert (H : handleGRPCError (Some e) = Some e)
      by (apply handleGRPCError_not_status; rewrite E; reflexivity).
    rewrite !H. reflexivity.
Qed.

(** X2: the translator returns nil for nil only: no failure is swallowed and
    no failure is made up. *)
Theorem handleGRPCError_nil_iff (err : option error) :
  handleGRPCError err = None <-> err = None.
Proof.
  split.
  - destruct err as [e |]; [| reflexivity].
    destruct (handleGRPCError_Some e) as [e' ->]. discriminate.
  - intros ->. reflexivity.
Qed.

(** X3: for a failure that carries a status, the sentinel returned tells the
    class of the code and nothing more: [ErrNotFound] exactly for
    NotFound, [ErrUnauthorized] exactly for PermissionDenied and
    Unauthenticated, [ErrInternal] exactly for every other code, among
    them Unavailable, Canceled and DeadlineExceeded. *)
Theorem handleGRPCError_status_classes (e : error)
  (st : option status.Status) :
  FromError (Some e) = (st, true) ->
  (handleGRPCError (Some e) = Some ErrNotFound
   <-> status.Code st = codes.NotFound) /\
  (handleGRPCError (Some e) = Some ErrUnauthorized
   <-> status.Code st = codes.PermissionDenied
       \/ status.Code st = codes.Unauthenticated) /\
  (handleGRPCError (Some e) = Some ErrInternal
   <-> status.Code st <> codes.NotFound
       /\ status.Code st <> codes.PermissionDenied
       /\ status.Code st <> codes.Unauthenticated).
Proof.
  intros E. rewrite (handleGRPCError_status e st E).
  unfold codes.NotFound, codes.PermissionDenied, codes.Unauthenticated.
  destruct (Z.eqb_spec (status.Code st) 5) as [H5 | H5];
    destruct (Z.eqb_spec (status.Code st) 7) as [H7 | H7];
    destruct (Z.eqb_spec (status.Code st) 16) as [H16 | H16];
    cbn [orb]; (split; [| split]); split; intros Hx;
    try discriminate; try lia; try reflexivity; auto;
    try (destruct Hx as [Hx | Hx]; lia).
Qed.

Lemma handleGRPCError_status_classes_witness :
  (handleGRPCError (Some unreachable) = Some ErrNotFound
   <-> codes.Unavailable = codes.NotFound) /\
  (handleGRPCError (Some unreachable) = Some ErrUnauthorized
   <-> codes.Unavailable = codes.PermissionDenied
       \/ codes.Unavailable = codes.Unauthenticated) /\
  (handleGRPCError (Some unreachable) = Some ErrInternal
   <-> codes.Unavailable <> codes.NotFound
       /\ codes.Unavailable <> codes.PermissionDenied
       /\ codes.Unavailable <> codes.Unauthenticated).
Proof.
  apply (handleGRPCError_status_classes unreachable
           (Some (status.New codes.Unavailable "inventory service unreachable"))).
  reflexivity.
Defined.

(** ** The registry: shutdown, then health *)

Lemma Close_store_shutdown (h : gmap loc ClientConn) (c : Clients)
  (svc : string) (l : loc) (cc : ClientConn) :
  (svc, Some l) ∈ services c ->
  close_at (inventoryConn c)
    (close_at (listingConn c) (close_at (userConn c) h)) !! l = Some cc ->
  state cc = connectivity.Shutdown.
Proof.
  intros Hin. rewrite !close_at_lookup.
  in_services Hin; repeat case_decide; try congruence;
    destruct (h !! l) as [cc0 |]; cbn; intros [= <-]; reflexivity.
Qed.

(** X4: after [Close] on a registry that is not nil, the health report
    is false for every service: for a connection that was closed as for
    one that was never there. *)
Theorem HealthCheck_after_Close (h : gmap loc ClientConn) (c : Clients) :
  valid h c ->
  exists (h' : gmap loc ClientConn) (m : gmap string bool),
    Close (Some c) h = Done (tt, h') /\
    HealthCheck c h' = Done (m, h') /\
    forall svc conn, (svc, conn) ∈ services c -> m !! svc = Some false.
Proof.
  intros Hv. pose proof (Close_valid h c Hv) as Hv'.
  pose proof (Close_store_shutdown h c) as Hdown.
  set (h' := close_at (inventoryConn c)
               (close_at (listingConn c) (close_at (userConn c) h))) in *.
  assert (Hfalse : forall svc conn, (svc, conn) ∈ services c ->
            isHealthy conn h' = Done (false, h')).
  { intros svc conn Hin.
    destruct (isHealthy_spec h' conn) as ([|] & E & Hb); [| | exact E].
    - intros l ->. exact (Hv' svc l Hin).
    - destruct Hb as [Hb _]. destruct (Hb eq_refl) as (l & cc & -> & Hcc & Hs).
      rewrite (Hdown svc l cc Hin Hcc) in Hs.
      destruct Hs as [Hs | Hs]; discriminate Hs. }
  exists h'. eexists. split; [apply Close_store; exact Hv | split].
  - unfold HealthCheck.
    erewrite bind_Done
      by (apply (Hfalse "user-service"); unfold services;
          rewrite !elem_of_cons; auto).
    erewrite bind_Done
      by (apply (Hfalse "listing-service"); unfold services;
          rewrite !elem_of_cons; auto).
    erewrite bind_Done
      by (apply (Hfalse "inventory-service"); unfold services;
          rewrite !elem_of_cons; auto).
    reflexivity.
  - intros svc conn Hin. in_services Hin; simplify_map_eq; reflexivity.
Qed.

Lemma HealthCheck_after_Close_witness :
  exists (h' : gmap loc ClientConn) (m : gmap string bool),
    Close (Some partial_clients) partial_store = Done (tt, h') /\
    HealthCheck partial_clients h' = Done (m, h') /\
    forall svc conn,
      (svc, conn) ∈ services partial_clients -> m !! svc = Some false.
Proof.
  apply (HealthCheck_after_Close partial_store partial_clients).
  exact partial_valid.
Defined.

(** ** Startup *)

Lemma fresh_unused (h : gmap loc ClientConn) : h !! fresh (dom h) = None.
Proof. apply not_elem_of_dom. apply is_fresh. Qed.

Lemma Dial_accepts (D : Dialer) (target : string) (h : gmap loc ClientConn) :
  dial_error D target = None ->
  Dial D target h
  = Done ((Some (fresh (dom h)), None),
          <[fresh (dom h) := mkConn target (dial_state D target)]> h).
Proof. unfold Dial. intros ->. reflexivity. Qed.

Lemma Dial_rejects (D : Dialer) (target : string) (e : error)
  (h : gmap loc ClientConn) :
  dial_error D target = Some e ->
  Dial D target h = Done ((None, Some e), h).
Proof. unfold Dial. intros ->. reflexivity. Qed.

(** [Close] on a connection of the store leaves it torn down, whether
    this call closed it or an earlier one had. *)
Lemma ClientConn_Close_store (h : gmap loc ClientConn) (l : loc) :
  is_Some (h !! l) ->
  exists r, ClientConn_Close (Some l) h = Done (r, alter torn_down l h).
Proof.
  intros [[t s] Hcc].
  unfold ClientConn_Close, bind, deref, assign, ret. rewrite Hcc. cbn.
  destruct (Z.eqb_spec s connectivity.Shutdown) as [-> | Hs]; cbn;
    eexists; f_equal; f_equal; apply map_eq; intros j; rewrite lookup_alter;
    destruct (decide (l = j)) as [<- |];
    rewrite ?lookup_insert_eq, ?lookup_insert_ne, ?Hcc by assumption;
    reflexivity.
Qed.

(** X5: when [grpc.Dial] accepts the three targets, [NewClients] returns a
    registry and no error.  Its three connections are new (at addresses
    unused before), pairwise different, each dialled to its own address
    of the configuration; the registry is valid in the new store, and
    the connections that existed before are untouched. *)
Theorem NewClients_success (D : Dialer) (cf : Config)
  (h : gmap loc ClientConn) :
  first_rejected D cf = None ->
  exists (lu ll li : loc) (h' : gmap loc ClientConn),
    NewClients D (Some cf) h
    = Done ((Some (mkClients (Some lu) (Some ll) (Some li) (Some cf)), None),
            h') /\
    (lu <> ll /\ lu <> li /\ ll <> li) /\
    (h !! lu = None /\ h !! ll = None /\ h !! li = None) /\
    h' !! lu = Some (mkConn (UserServiceAddr cf)
                       (dial_state D (UserServiceAddr cf))) /\
    h' !! ll = Some (mkConn (ListingServiceAddr cf)
                       (dial_state D (ListingServiceAddr cf))) /\
    h' !! li = Some (mkConn (InventoryServiceAddr cf)
                       (dial_state D (InventoryServiceAddr cf))) /\
    (forall l, is_Some (h !! l) -> h' !! l = h !! l) /\
    valid h' (mkClients (Some lu) (Some ll) (Some li) (Some cf)).
Proof.
  unfold first_rejected. intros Hacc.
  destruct (dial_error D (UserServiceAddr cf)) eqn:Eu; [discriminate |].
  destruct (dial_error D (ListingServiceAddr cf)) eqn:El; [discriminate |].
  set (lu := fresh (dom h)).
  set (h1 := <[lu := mkConn (UserServiceAddr cf)
                       (dial_state D (UserServiceAddr cf))]> h).
  set (ll := fresh (dom h1)).
  set (h2 := <[ll := mkConn (ListingServiceAddr cf)
                       (dial_state D (ListingServiceAddr cf))]> h1).
  set (li := fresh (dom h2)).
  set (h3 := <[li := mkConn (InventoryServiceAddr cf)
                       (dial_state D (InventoryServiceAddr cf))]> h2).
  pose proof (fresh_unused h) as Fu. fold lu in Fu.
  pose proof (fresh_unused h1) as Fl. fold ll in Fl.
  pose proof (fresh_unused h2) as Fi. fold li in Fi.
  assert (Hul : lu <> ll).
  { intros E. rewrite <- E in Fl. unfold h1 in Fl.
    rewrite lookup_insert_eq in Fl. discriminate. }
  assert (Hli : ll <> li).
  { intros E. rewrite <- E in Fi. unfold h2 in Fi.
    rewrite lookup_insert_eq in Fi. discriminate. }
  assert (Hui : lu <> li).
  { intros E. rewrite <- E in Fi. unfold h2, h1 in Fi.
    rewrite lookup_insert_ne, lookup_insert_eq in Fi by congruence.
    discriminate. }
  assert (Fl0 : h !! ll = None).
  { unfold h1 in Fl. rewrite lookup_insert_ne in Fl by congruence. exact Fl. }
  assert (Fi0 : h !! li = None).
  { unfold h2, h1 in Fi. rewrite !lookup_insert_ne in Fi by congruence.
    exact Fi. }
  assert (Hlu : h3 !! lu = Some (mkConn (UserServiceAddr cf)
                                   (dial_state D (UserServiceAddr cf)))).
  { unfold h3, h2, h1.
    rewrite !lookup_insert_ne, lookup_insert_eq by congruence. reflexivity. }
  assert (Hll : h3 !! ll = Some (mkConn (ListingServiceAddr cf)
                                   (dial_state D (ListingServiceAddr cf)))).
  { unfold h3, h2.
    rewrite lookup_insert_ne, lookup_insert_eq by congruence. reflexivity. }
  assert (Hl3 : h3 !! li = Some (mkConn (InventoryServiceAddr cf)
                                   (dial_state D (InventoryServiceAddr cf)))).
  { unfold h3. rewrite lookup_insert_eq. reflexivity. }
  exists lu, ll, li, h3. repeat split; auto.
  - unfold NewClients.
    erewrite bind_Done by (apply Dial_accepts; exact Eu). cbn [fst snd].
    erewrite bind_Done by (apply Dial_accepts; exact El). cbn [fst snd].
    erewrite bind_Done by (apply Dial_accepts; exact Hacc). reflexivity.
  - intros l [cc Hcc]. unfold h3, h2, h1.
    rewrite !lookup_insert_ne by congruence. reflexivity.
  - intros svc l Hin. in_services Hin; eauto.
Qed.

Lemma NewClients_success_witness :
  exists (lu ll li : loc) (h' : gmap loc ClientConn),
    NewClients strict_dialer (Some some_config) partial_store
    = Done ((Some (mkClients (Some lu) (Some ll) (Some li) (Some some_config)),
             None), h') /\
    (lu <> ll /\ lu <> li /\ ll <> li) /\
    (partial_store !! lu = None /\ partial_store !! ll = None
     /\ partial_store !! li = None) /\
    h' !! lu = Some (mkConn (UserServiceAddr some_config)
                       (dial_state strict_dialer (UserServiceAddr some_config))) /\
    h' !! ll = Some (mkConn (ListingServiceAddr some_config)
                       (dial_state strict_dialer
                          (ListingServiceAddr some_config))) /\
    h' !! li = Some (mkConn (InventoryServiceAddr some_config)
                       (dial_state strict_dialer
                          (InventoryServiceAddr some_config))) /\
    (forall l, is_Some (partial_store !! l) -> h' !! l = partial_store !! l) /\
    valid h' (mkClients (Some lu) (Some ll) (Some li) (Some some_config)).
Proof.
  apply (NewClients_success strict_dialer some_config partial_store).
  reflexivity.
Defined.

(** X6: when [grpc.Dial] rejects one of the targets, [NewClients] returns no
    registry and the error of the first rejected target.  Every
    connection it had dialled by then is closed: whatever the call added
    to the store is in state SHUTDOWN, and the connections that existed
    before are untouched. *)
Theorem NewClients_failure (D : Dialer) (cf : Config)
  (h : gmap loc ClientConn) (e : error) :
  first_rejected D cf = Some e ->
  exists h' : gmap loc ClientConn,
    NewClients D (Some cf) h = Done ((None, Some e), h') /\
    (forall l, is_Some (h !! l) -> h' !! l = h !! l) /\
    (forall l cc, h !! l = None -> h' !! l = Some cc ->
                  state cc = connectivity.Shutdown).
Proof.
  unfold first_rejected. intros Hrej.
  destruct (dial_error D (UserServiceAddr cf)) as [eu |] eqn:Eu.
  { (* the user service is rejected: nothing was dialled *)
    injection Hrej as ->. exists h. split; [| split].
    - unfold NewClients.
      erewrite bind_Done by (apply Dial_rejects; exact Eu). reflexivity.
    - reflexivity.
    - intros l cc Hn Hs. congruence. }
  set (lu := fresh (dom h)).
  set (h1 := <[lu := mkConn (UserServiceAddr cf)
                       (dial_state D (UserServiceAddr cf))]> h).
  pose proof (fresh_unused h) as Fu. fold lu in Fu.
  assert (H1 : is_Some (h1 !! lu))
    by (unfold h1; rewrite lookup_insert_eq; eauto).
  destruct (dial_error D (ListingServiceAddr cf)) as [el |] eqn:El.
  { (* the listing service is rejected: the user connection is closed *)
    injection Hrej as ->.
    destruct (ClientConn_Close_store h1 lu H1) as [r Hr].
    exists (alter torn_down lu h1). split; [| split].
    - unfold NewClients.
      erewrite bind_Done by (apply Dial_accepts; exact Eu). cbn [fst snd].
      erewrite bind_Done by (apply Dial_rejects; exact El). cbn [fst snd].
      erewrite bind_Done by exact Hr. reflexivity.
    - intros l [cc Hcc]. assert (lu <> l) by congruence.
      unfold h1. rewrite lookup_alter_ne, lookup_insert_ne by assumption.
      reflexivity.
    - intros l cc Hn. destruct (decide (lu = l)) as [<- | Hne].
      + unfold h1. rewrite lookup_alter_eq, lookup_insert_eq.
        intros [= <-]. reflexivity.
      + unfold h1. rewrite lookup_alter_ne, lookup_insert_ne by assumption.
        congruence. }
  (* the inventory service is rejected: both connections are closed *)
  set (ll := fresh (dom h1)).
  set (h2 := <[ll := mkConn (ListingServiceAddr cf)
                       (dial_state D (ListingServiceAddr cf))]> h1).
  pose proof (fresh_unused h1) as Fl. fold ll in Fl.
  assert (Hul : lu <> ll).
  { intros E. rewrite <- E in Fl. destruct H1 as [cc Hcc]. congruence. }
  assert (H2u : is_Some (h2 !! lu))
    by (unfold h2; rewrite lookup_insert_ne by congruence; exact H1).
  destruct (ClientConn_Close_store h2 lu H2u) as [r Hr].
  assert (H2l : is_Some (alter torn_down lu h2 !! ll)).
  { rewrite lookup_alter_ne by assumption. unfold h2.
    rewrite lookup_insert_eq. eauto. }
  destruct (ClientConn_Close_store _ ll H2l) as [r' Hr'].
  exists (alter torn_down ll (alter torn_down lu h2)). split; [| split].
  - unfold NewClients.
    erewrite bind_Done by (apply Dial_accepts; exact Eu). cbn [fst snd].
    erewrite bind_Done by (apply Dial_accepts; exact El). cbn [fst snd].
    erewrite bind_Done by (apply Dial_rejects; exact Hrej). cbn [fst snd].
    erewrite bind_Done by exact Hr.
    erewrite bind_Done by exact Hr'. reflexivity.
  - intros l [cc Hcc].
    assert (lu <> l) by congruence.
    assert (ll <> l).
    { intros <-. unfold h1 in Fl.
      rewrite lookup_insert_ne in Fl by assumption. congruence. }
    unfold h2, h1.
    rewrite !lookup_alter_ne, !lookup_insert_ne by assumption. reflexivity.
  - intros l cc Hn.
    destruct (decide (ll = l)) as [<- | Hnl].
    + rewrite lookup_alter_eq, lookup_alter_ne by assumption. unfold h2.
      rewrite lookup_insert_eq. intros [= <-]. reflexivity.
    + rewrite lookup_alter_ne by assumption.
      destruct (decide (lu = l)) as [<- | Hnu].
      * rewrite lookup_alter_eq. unfold h2, h1.
        rewrite lookup_insert_ne, lookup_insert_eq by assumption.
        intros [= <-]. reflexivity.
      * rewrite lookup_alter_ne by assumption. unfold h2, h1.
        rewrite !lookup_insert_ne by assumption. congruence.
Qed.

Lemma NewClients_failure_witness :
  exists h' : gmap loc ClientConn,
    NewClients strict_dialer (Some broken_config) partial_store
    = Done ((None, Some empty_target), h') /\
    (forall l, is_Some (partial_store !! l) -> h' !! l = partial_store !! l) /\
    (forall l cc, partial_store !! l = None -> h' !! l = Some cc ->
                  state cc = connectivity.Shutdown).
Proof.
  apply (NewClients_failure strict_dialer broken_config partial_store
           empty_target).
  reflexivity.
Defined.

(** A nil configuration makes [NewClients] panic before it dials. *)
Example NewClients_nil_config (D : Dialer) (h : gmap loc ClientConn) :
  NewClients D None h = Panic nil_deref.
Proof. reflexivity. Qed.

(** ** The listening port of main *)

(** X7: the port [main] listens on is never empty: it is the configured port
    when there is one, whatever the environment says; otherwise the
    environment's PORT when that is set; otherwise 8080. *)
Theorem listen_port_never_empty (cfg : Config) (Getenv : string -> string) :
  listen_port cfg Getenv <> "" /\
  (Port cfg <> "" -> listen_port cfg Getenv = Port cfg) /\
  (Port cfg = "" -> Getenv "PORT" <> "" ->
   listen_port cfg Getenv = Getenv "PORT") /\
  (Port cfg = "" -> Getenv "PORT" = "" -> listen_port cfg Getenv = "8080") /\
  listen_addr cfg Getenv = ":" +:+ listen_port cfg Getenv /\
  listen_addr cfg Getenv <> ":" /\
  String.length (listen_addr cfg Getenv) = S (String.length (listen_port cfg Getenv)).
Proof.
  assert (Hport :
    listen_port cfg Getenv <> "" /\
    (Port cfg <> "" -> listen_port cfg Getenv = Port cfg) /\
    (Port cfg = "" -> Getenv "PORT" <> "" ->
     listen_port cfg Getenv = Getenv "PORT") /\
    (Port cfg = "" -> Getenv "PORT" = "" -> listen_port cfg Getenv = "8080")).
  { unfold listen_port.
    destruct (String.eqb_spec (Port cfg) "") as [Ep | Ep];
      [destruct (String.eqb_spec (Getenv "PORT") "") as [Ee | Ee] |];
      (split; [| split; [| split]]); intros;
      try congruence; try discriminate; auto. }
  destruct Hport as (Hne & Hcfg & Henv & Hdef).
  split; [exact Hne |]. split; [exact Hcfg |]. split; [exact Henv |].
  split; [exact Hdef |]. unfold listen_addr. cbn.
  split; [reflexivity | split; [| reflexivity]].
  intros Heq. injection Heq as Heq. exact (Hne Heq).
Qed.

Lemma listen_port_never_empty_witness :
  listen_port broken_config (fun _ => "") = "8080" /\
  listen_port broken_config (fun _ => "9000") = "9000" /\
  listen_port some_config (fun _ => "9000") = "8080" /\
  listen_addr broken_config (fun _ => "9000")
  = ":" +:+ listen_port broken_config (fun _ => "9000").
Proof.
  destruct (listen_port_never_empty broken_config (fun _ => ""))
    as (_ & _ & _ & H0 & _).
  destruct (listen_port_never_empty broken_config (fun _ => "9000"))
    as (_ & _ & H1 & _ & Haddr & _).
  destruct (listen_port_never_empty some_config (fun _ => "9000"))
    as (_ & H2 & _).
  split; [apply H0; reflexivity | split; [| split]].
  - apply H1; [reflexivity | discriminate].
  - apply H2. discriminate.
  - exact Haddr.
Defined.

(** The address for an unset port and PORT=9000, computed. *)
Example listen_addr_9000 :
  listen_addr broken_config (fun _ => "9000") = ":9000".
Proof. reflexivity. Qed.

(** ** More of the facades *)

(** X8: [GetOrder] returns [ErrNotFound], and a nil order, exactly for the
    order id "not-found"; for every other id it returns no error and an
    order with the requested id, owned by the requesting user, pending,
    with no items and no reservations. *)
Theorem GetOrder_not_found_iff {Addr : Type} `{Inhabited Addr} (c : Clients)
  (orderID userID : string) :
  (snd (GetOrder (Addr := Addr) c orderID userID) = Some ErrNotFound
   <-> orderID = "not-found") /\
  (fst (GetOrder (Addr := Addr) c orderID userID) = None
   <-> orderID = "not-found") /\
  (orderID <> "not-found" ->
   exists o : Order Addr,
     GetOrder c orderID userID = (Some o, None) /\
     Order_ID o = orderID /\ Order_UserID o = userID /\
     Order_Status o = "pending" /\
     Order_Items o = [] /\ Order_ReservationIDs o = []).
Proof.
  unfold GetOrder.
  destruct (String.eqb_spec orderID "not-found") as [E | E]; cbn.
  - repeat split; auto. intros Hne. contradiction.
  - repeat split; try (intros Hx; congruence).
    intros _. eexists. repeat split.
Qed.

Lemma GetOrder_not_found_iff_witness :
  GetOrder (Addr := string) partial_clients "not-found" "alice"
  = (None, Some ErrNotFound) /\
  exists o : Order string,
    GetOrder partial_clients "order-17" "alice" = (Some o, None) /\
    Order_ID o = "order-17" /\ Order_UserID o = "alice" /\
    Order_Status o = "pending" /\
    Order_Items o = [] /\ Order_ReservationIDs o = [].
Proof.
  split; [reflexivity |].
  destruct (GetOrder_not_found_iff (Addr := string) partial_clients
              "order-17" "alice") as (_ & _ & Hok).
  apply Hok. discriminate.
Defined.

(** X9: the token of [ReserveInventory] names the product and nothing else:
    two reservations get the same token exactly when they are for the
    same product, whatever their quantities and whoever asks. *)
Theorem ReserveInventory_token_injective (c c' : Clients)
  (productID productID' : string) (quantity quantity' : Z) :
  fst (ReserveInventory c productID quantity)
  = fst (ReserveInventory c' productID' quantity')
  <-> productID = productID'.
Proof.
  unfold ReserveInventory. cbn. split.
  - intros Heq. injection Heq. auto.
  - intros ->. reflexivity.
Qed.

(** The loop of [CreateOrder], from any accumulator: it appends one
    order item per requested item, in order, and adds their prices to
    the running total from left to right. *)
Lemma CreateOrder_loop (items : list OrderItemRequest)
  (acc : list OrderItem) (total : float) :
  exists its : list OrderItem,
    fold_left CreateOrder_step items (acc, total)
    = ((acc ++ its)%list,
       fold_left (fun t i => PrimFloat.add t (Item_TotalPrice i)) its total) /\
    map Item_ProductID its = map Req_ProductID items /\
    map Item_Quantity its = map Req_Quantity items /\
    Forall (fun i =>
              Item_UnitPrice i = f29_99 /\
              Item_TotalPrice i
              = PrimFloat.mul (float64_of_int (Item_Quantity i))
                  (Item_UnitPrice i)) its.
Proof.
  revert acc total. induction items as [| item rest IH]; intros acc total.
  - exists []. cbn. rewrite app_nil_r. repeat split. constructor.
  - set (oi := mkOrderItem (Req_ProductID item) (Req_Quantity item) f29_99
                 (PrimFloat.mul (float64_of_int (Req_Quantity item)) f29_99)).
    change (fold_left CreateOrder_step (item :: rest) (acc, total))
      with (fold_left CreateOrder_step rest
              ((acc ++ [oi])%list, PrimFloat.add total (Item_TotalPrice oi))).
    destruct (IH (acc ++ [oi])%list (PrimFloat.add total (Item_TotalPrice oi)))
      as (its & E & Hp & Hq & Hf).
    exists (oi :: its). rewrite E, <- app_assoc.
    split; [reflexivity |]. cbn [map]. rewrite Hp, Hq.
    repeat split. constructor; [split; reflexivity | exact Hf].
Qed.

(** X10: [CreateOrder] of client.go never fails, and the order has one item
    per requested item, in the order of the request, with the product
    and the quantity requested (which it does not check: zero and
    negative quantities are taken as they are), the unit price 29.99
    and the price of the line; the shipping address, the user and the
    reservation ids are those it was given. *)
Theorem CreateOrder_items_follow_request {Addr : Type} (c : Clients)
  (userID : string) (req : CreateOrderRequest Addr)
  (reservationIDs : list string) :
  exists o : Order Addr,
    grpcclient.CreateOrder c userID req reservationIDs = (Some o, None) /\
    length (Order_Items o) = length (Req_Items req) /\
    map Item_ProductID (Order_Items o) = map Req_ProductID (Req_Items req) /\
    map Item_Quantity (Order_Items o) = map Req_Quantity (Req_Items req) /\
    Forall (fun i =>
              Item_UnitPrice i = f29_99 /\
              Item_TotalPrice i
              = PrimFloat.mul (float64_of_int (Item_Quantity i))
                  (Item_UnitPrice i)) (Order_Items o) /\
    Order_ShippingAddr o = Req_ShippingAddr req /\
    Order_UserID o = userID /\
    Order_ReservationIDs o = reservationIDs /\
    Order_Status o = "pending".
Proof.
  unfold grpcclient.CreateOrder.
  destruct (CreateOrder_loop (Req_Items req) [] 0%float)
    as (its & -> & Hp & Hq & Hf).
  eexists. split; [reflexivity |]. cbn.
  repeat split; auto.
  rewrite <- (length_map Item_ProductID), Hp, length_map. reflexivity.
Qed.

(** X11: the total of the order [CreateOrder] returns is the sum of the
    prices of its lines, added in request order starting from zero; an
    empty request gives an order with no line and a zero total. *)
Theorem CreateOrder_total_is_sum {Addr : Type} (c : Clients)
  (userID : string) (req : CreateOrderRequest Addr)
  (reservationIDs : list string) :
  exists o : Order Addr,
    grpcclient.CreateOrder c userID req reservationIDs = (Some o, None) /\
    Order_TotalAmount o
    = fold_left (fun t i => PrimFloat.add t (Item_TotalPrice i))
        (Order_Items o) 0%float /\
    (Req_Items req = [] ->
     Order_Items o = [] /\ Order_TotalAmount o = 0%float).
Proof.
  unfold grpcclient.CreateOrder.
  destruct (CreateOrder_loop (Req_Items req) [] 0%float)
    as (its & E & Hp & _).
  rewrite E. eexists. split; [reflexivity |]. cbn. split; [reflexivity |].
  intros Hnil. rewrite Hnil in Hp. destruct its; [| discriminate].
  split; reflexivity.
Qed.

Lemma CreateOrder_total_is_sum_witness :
  exists o : Order string,
    grpcclient.CreateOrder partial_clients "alice"
      (mkCreateOrderRequest [] "1 Main St") []
    = (Some o, None) /\
    Order_Items o = [] /\ Order_TotalAmount o = 0%float.
Proof.
  destruct (CreateOrder_total_is_sum partial_clients "alice"
              (mkCreateOrderRequest [] "1 Main St") [])
    as (o & E & _ & Hnil).
  exists o. split; [exact E | apply Hnil; reflexivity].
Defined.

(** Two lines and their total, computed: 2 x 29.99 and 1 x 29.99. *)
Example CreateOrder_P1_P3_total :
  exists o : Order string,
    grpcclient.CreateOrder partial_clients "alice" draft_P1_P3 []
    = (Some o, None) /\
    map Item_TotalPrice (Order_Items o)
    = [PrimFloat.mul 2%float f29_99; f29_99] /\
    Order_TotalAmount o
    = PrimFloat.add (PrimFloat.mul 2%float f29_99) f29_99.
Proof. eexists. split; [vm_compute; reflexivity |]. split; reflexivity. Qed.
